(** * ZK Lending MVP: the collateral circuit, the lending ledger and the
      proof files

    An embedding of
    - [circuits/collateral_check.circom] (template [CollateralCheck]) and
      of what the circom compiler makes of it,
    - [contracts/ZKLending.sol] and [contracts/VerifierAdapter.sol],
    - the proof files written and read by [circuits/generate_proof.js] and
      [scripts/generate-proof.js], and the control flow of both scripts,
    together with the properties the specification states about them and
    further properties of the same code. *)

From Stdlib Require Import ZArith Zcong Lia Bool List String Ascii.
From stdpp Require Import gmap strings.
Import ListNotations.

(** ** Results of fallible code *)

Inductive result (E A : Type) : Type :=
| Ok (a : A)
| Err (e : E).
Arguments Ok {E A} a.
Arguments Err {E A} e.

Definition bind {E A B : Type} (r : result E A) (k : A -> result E B) : result E B :=
  match r with
  | Ok a => k a
  | Err e => Err e
  end.

Notation "'let!' x ':=' r 'in' k" := (bind r (fun x => k))
  (at level 10, x name, r at level 100, k at level 200).
Notation "'do!' r 'in' k" := (bind r (fun _ => k))
  (at level 10, r at level 100, k at level 200).

(** * The circuit [circuits/collateral_check.circom] *)

Module Circuit.
Local Open Scope Z_scope.

(** The scalar field of the curve snarkjs proves over ([bn128], the circom
    default). *)
Definition bn128 : Z :=
  21888242871839275222246405745257275088548364400416034343698204186575808495617.

(** ** The template as it is written

    The expressions the template uses: signals, number literals, [*],
    [/], [<=] and [c ? a : b]. *)
Inductive Expr :=
| Sig (name : string)
| Num (n : Z)
| Mul (a b : Expr)
| Div (a b : Expr)
| Leq (a b : Expr)
| Cond (c a b : Expr).

(** The forms of a signal declaration: [signal private input x] (the
    syntax of circom before 2.0), [signal input x], [signal output x]
    and [signal x]. *)
Inductive Kind := PrivateInput | Input | Output | Intermediate.

Record Declaration := mkDeclaration {
  decl_line : nat;
  decl_kind : Kind;
  decl_name : string
}.

(** The statements of a template body: [x <== e;], [a === b;],
    [assert(e);], and an expression followed by a semicolon. *)
Inductive Statement :=
| ConstrainAssign (line : nat) (lhs : string) (rhs : Expr)
| Constrain (line : nat) (a b : Expr)
| Assert (line : nat) (e : Expr)
| Expression (line : nat) (e : Expr).

Record Template := mkTemplate {
  declarations : list Declaration;
  body : list Statement
}.

(** [template CollateralCheck()], declaration by declaration and
    statement by statement, with the lines of the file.  The file opens
    with [pragma circom 2.0.0;] and closes with
    [component main = CollateralCheck();]: it instantiates no other
    component. *)
Definition collateral_check : Template :=
  mkTemplate
    [ mkDeclaration 75 PrivateInput "userCollateralAmount";
      mkDeclaration 76 PrivateInput "collateralPrice";
      mkDeclaration 77 PrivateInput "userAddress";
      mkDeclaration 78 PrivateInput "borrowAmount";
      mkDeclaration 79 PrivateInput "collateralizationRatio";
      mkDeclaration 82 Output "userAddressHash";
      mkDeclaration 83 Output "borrowAmountHash";
      mkDeclaration 84 Output "collateralValue";
      mkDeclaration 85 Output "maxBorrowable";
      mkDeclaration 86 Output "canBorrow";
      mkDeclaration 89 Intermediate "collateralValueCalc";
      mkDeclaration 90 Intermediate "maxBorrowableCalc";
      mkDeclaration 91 Intermediate "borrowCheck" ]
    [ ConstrainAssign 94 "collateralValueCalc"
        (Mul (Sig "userCollateralAmount") (Sig "collateralPrice"));
      ConstrainAssign 95 "collateralValue" (Sig "collateralValueCalc");
      ConstrainAssign 99 "maxBorrowableCalc"
        (Div (Mul (Sig "collateralValue") (Num 100)) (Sig "collateralizationRatio"));
      ConstrainAssign 100 "maxBorrowable" (Sig "maxBorrowableCalc");
      ConstrainAssign 103 "borrowCheck"
        (Cond (Leq (Sig "borrowAmount") (Sig "maxBorrowable")) (Num 1) (Num 0));
      ConstrainAssign 104 "canBorrow" (Sig "borrowCheck");
      ConstrainAssign 108 "userAddressHash" (Sig "userAddress");
      ConstrainAssign 111 "borrowAmountHash" (Sig "borrowAmount");
      Expression 114
        (Leq (Mul (Sig "borrowAmount") (Sig "collateralizationRatio"))
             (Mul (Sig "collateralValue") (Num 100))) ].

(** The names declared with a given kind, in the order of the file. *)
Definition declared (k : Kind) (t : Template) : list string :=
  map decl_name
    (Stdlib.Lists.List.filter (fun d => match decl_kind d, k with
                      | PrivateInput, PrivateInput | Input, Input
                      | Output, Output | Intermediate, Intermediate => true
                      | _, _ => false
                      end) (declarations t)).

(** The statements that can stop witness generation: [===] and
    [assert]. *)
Definition checks (s : Statement) : bool :=
  match s with
  | Constrain _ _ _ | Assert _ _ => true
  | ConstrainAssign _ _ _ | Expression _ _ => false
  end.

(** The right-hand side of the statement [x <== e] that defines [x]. *)
Fixpoint definition_of (x : string) (stmts : list Statement) : option Expr :=
  match stmts with
  | [] => None
  | ConstrainAssign _ y e :: rest =>
    if String.eqb x y then Some e else definition_of x rest
  | _ :: rest => definition_of x rest
  end.

(** What can go wrong between the circuit file and a witness: the
    compiler rejects the file, at a line it cannot parse or at a
    constraint that is not quadratic; an input is missing; a [===] or an
    [assert] does not hold. *)
Inductive Rejection :=
| NotInGrammar (line : nat)
| NonQuadratic (line : nat).

Inductive PipelineError :=
| CompileError (r : Rejection)
| MissingInput (name : string)
| UnsatisfiableWitness.

Section Field.
Variable p : Z.

(** circom's operators on field elements.  [*] is taken modulo [p].  [/]
    is division in the field: [a / b] is [a] times the inverse of [b]
    modulo [p] (the inverse of [0] read as [0]); the quotient of integer
    division is circom's other operator, the backslash.  The relational
    operators compare the signed representatives, a value above [p / 2]
    standing for a negative number.  [c ? a : b] takes [a] unless [c] is
    zero. *)
Definition Fnorm (a : Z) : Z := a mod p.
Definition Fmul (a b : Z) : Z := (a * b) mod p.
Definition Finv (a : Z) : Z := Z.invmod a p.
Definition Fdiv (a b : Z) : Z := (a * Finv b) mod p.
Definition Fval (a : Z) : Z := if p / 2 <? a then a - p else a.
Definition Fleq (a b : Z) : bool := Fval a <=? Fval b.
Definition Fbool (b : bool) : Z := if b then 1 else 0.
Definition Fcond (c a b : Z) : Z := if c =? 0 then b else a.

(** The value of an expression when the signals have the values of
    [env]; a signal without a value reads as zero. *)
Fixpoint eval (env : gmap string Z) (e : Expr) : Z :=
  match e with
  | Sig x => default 0 (env !! x)
  | Num n => Fnorm n
  | Mul a b => Fmul (eval env a) (eval env b)
  | Div a b => Fdiv (eval env a) (eval env b)
  | Leq a b => Fbool (Fleq (eval env a) (eval env b))
  | Cond c a b => Fcond (eval env c) (eval env a) (eval env b)
  end.

(** ** The compiler

    The file declares [pragma circom 2.0.0]: it is a circom 2 file.  The
    grammar of circom 2 has no [private] in a signal declaration (inputs
    are private unless the main component lists them as public) and no
    statement that is a bare expression; the parser stops at the first
    line it cannot read.  (The compiler before 2.0, the one [npm install
    -g circom] of [setup.sh] installs, knows no [pragma] and stops at
    that line.) *)
Definition parse_declaration (d : Declaration) : result Rejection unit :=
  match decl_kind d with
  | PrivateInput => Err (NotInGrammar (decl_line d))
  | Input | Output | Intermediate => Ok tt
  end.

Definition parse_statement (s : Statement) : result Rejection unit :=
  match s with
  | Expression line _ => Err (NotInGrammar line)
  | ConstrainAssign _ _ _ | Constrain _ _ _ | Assert _ _ => Ok tt
  end.

Fixpoint each {A E} (f : A -> result E unit) (l : list A) : result E unit :=
  match l with
  | [] => Ok tt
  | x :: rest => do! f x in each f rest
  end.

Definition parse (t : Template) : result Rejection unit :=
  do! each parse_declaration (declarations t) in
  each parse_statement (body t).

(** The degree of an expression in the signals, when the compiler can
    bring it into the form of a rank-1 constraint: a constant has degree
    0, a signal degree 1, a product the sum of the degrees of its factors
    if that is at most 2.  A quotient keeps the degree of its dividend
    when the divisor is a constant; a comparison is a constant when both
    sides are; a conditional whose condition is a constant is the branch
    chosen.  Everything else is not quadratic. *)
Fixpoint degree (e : Expr) : option nat :=
  match e with
  | Sig _ => Some 1%nat
  | Num _ => Some 0%nat
  | Mul a b =>
    match degree a, degree b with
    | Some m, Some n => if (m + n <=? 2)%nat then Some (m + n)%nat else None
    | _, _ => None
    end
  | Div a b =>
    match degree b with
    | Some O => degree a
    | _ => None
    end
  | Leq a b =>
    match degree a, degree b with
    | Some O, Some O => Some 0%nat
    | _, _ => None
    end
  | Cond c a b =>
    match degree c with
    | Some O => if eval ∅ c =? 0 then degree b else degree a
    | _ => None
    end
  end.

Definition quadratic (e : Expr) : bool :=
  match degree e with
  | Some _ => true
  | None => false
  end.

(** A [<==] and a [===] constrain: both demand a quadratic expression
    ("Non quadratic constraints are not allowed!"). *)
Definition constrain_statement (s : Statement) : result Rejection unit :=
  match s with
  | ConstrainAssign line _ e =>
    if quadratic e then Ok tt else Err (NonQuadratic line)
  | Constrain line a b =>
    if quadratic a && quadratic b then Ok tt else Err (NonQuadratic line)
  | Assert _ _ | Expression _ _ => Ok tt
  end.

(** The constraint system of a template that compiles: one equation per
    [<==] and per [===]. *)
Fixpoint constraints (stmts : list Statement) : list (Expr * Expr) :=
  match stmts with
  | [] => []
  | ConstrainAssign _ x e :: rest => (Sig x, e) :: constraints rest
  | Constrain _ a b :: rest => (a, b) :: constraints rest
  | _ :: rest => constraints rest
  end.

Definition compile (t : Template) : result Rejection (list (Expr * Expr)) :=
  do! parse t in
  do! each constrain_statement (body t) in
  Ok (constraints (body t)).

(** ** Witness generation

    The program the compiler emits for a template that compiles: the
    inputs are loaded, the statements run in the order of the file, a
    [<==] assigns, a [===] or an [assert] that does not hold stops the
    run. *)
Fixpoint load (names : list string) (input : gmap string Z)
  : result PipelineError (gmap string Z) :=
  match names with
  | [] => Ok ∅
  | x :: rest =>
    match input !! x with
    | Some v => let! env := load rest input in Ok (<[x := Fnorm v]> env)
    | None => Err (MissingInput x)
    end
  end.

Definition step (env : gmap string Z) (s : Statement)
  : result PipelineError (gmap string Z) :=
  match s with
  | ConstrainAssign _ x e => Ok (<[x := eval env e]> env)
  | Constrain _ a b =>
    if eval env a =? eval env b then Ok env else Err UnsatisfiableWitness
  | Assert _ e =>
    if eval env e =? 0 then Err UnsatisfiableWitness else Ok env
  | Expression _ _ => Ok env
  end.

Fixpoint run (env : gmap string Z) (stmts : list Statement)
  : result PipelineError (gmap string Z) :=
  match stmts with
  | [] => Ok env
  | s :: rest => let! env' := step env s in run env' rest
  end.

Definition calculate (t : Template) (input : gmap string Z)
  : result PipelineError (gmap string Z) :=
  let! env := load (declared PrivateInput t ++ declared Input t) input in
  run env (body t).

(** From the circuit file to a witness: the witness generator is what the
    compiler emits, so there is none for a file the compiler rejects. *)
Definition generate_witness (t : Template) (input : gmap string Z)
  : result PipelineError (gmap string Z) :=
  match compile t with
  | Err r => Err (CompileError r)
  | Ok _ => calculate t input
  end.

End Field.

(** The inputs of the scenario of the specification, as an [input.json]
    names them: 100 units of collateral at price 2000 under a ratio of
    150, for the user [0xA11CE]. *)
Definition request (amount : Z) : gmap string Z :=
  {[ "userCollateralAmount" := 100; "collateralPrice" := 2000;
     "userAddress" := 659918; "borrowAmount" := amount;
     "collateralizationRatio" := 150 ]}.

End Circuit.

(** * The lending ledger [ZKLending] and the [VerifierAdapter] *)

Module Ledger.
Local Open Scope Z_scope.

(** An address is the number [uint256(uint160(a))]. *)
Definition address : Type := Z.

Definition MAX_UINT256 : Z := 2 ^ 256 - 1.

(** A call ends in a [require] that fails with its reason string, or in a
    panic of the compiler's checked arithmetic (0x11 overflow, 0x12
    division by zero, 0x32 index out of bounds). *)
Inductive Error :=
| Revert (reason : string)
| Panic (code : Z).

Definition require (c : bool) (reason : string) : result Error unit :=
  if c then Ok tt else Err (Revert reason).

(** Checked [uint256] arithmetic of Solidity 0.8. *)
Definition add (a b : Z) : result Error Z :=
  if a + b <=? MAX_UINT256 then Ok (a + b) else Err (Panic 17).
Definition sub (a b : Z) : result Error Z :=
  if b <=? a then Ok (a - b) else Err (Panic 17).
Definition mul (a b : Z) : result Error Z :=
  if a * b <=? MAX_UINT256 then Ok (a * b) else Err (Panic 17).
Definition div (a b : Z) : result Error Z :=
  if b =? 0 then Err (Panic 18) else Ok (a / b).
Definition pow10 (d : Z) : result Error Z :=
  if 10 ^ d <=? MAX_UINT256 then Ok (10 ^ d) else Err (Panic 17).

(** A [mapping(address => uint256)]: absent keys read as zero. *)
Definition balance (m : gmap Z Z) (a : address) : Z := default 0 (m !! a).

(** The SnarkJS proof format of [borrow]: [a], [b], [c]. *)
Record Proof := mkProof {
  pi_a : Z * Z;
  pi_b : (Z * Z) * (Z * Z);
  pi_c : Z * Z
}.

(** The two tokens are reached through [IERC20] only; their code is not
    among the sources.  They are given the bookkeeping the interface
    documents: [transfer] and [transferFrom] move exactly [amount] from
    one balance to the other and fail when the balance (or the allowance
    of the spender) is too small. *)
Record ERC20 := mkERC20 {
  balanceOf : gmap Z Z;
  allowance : gmap (Z * Z) Z
}.

Definition move (b : gmap Z Z) (from to : address) (amount : Z) : gmap Z Z :=
  let b1 := <[from := balance b from - amount]> b in
  <[to := balance b1 to + amount]> b1.

Definition transfer (t : ERC20) (from to : address) (amount : Z) : option ERC20 :=
  if amount <=? balance (balanceOf t) from
  then Some (mkERC20 (move (balanceOf t) from to amount) (allowance t))
  else None.

Definition transferFrom (t : ERC20) (spender from to : address) (amount : Z)
  : option ERC20 :=
  let allowed := default 0 (allowance t !! (from, spender)) in
  if (amount <=? allowed) && (amount <=? balance (balanceOf t) from)
  then Some (mkERC20 (move (balanceOf t) from to amount)
                     (<[(from, spender) := allowed - amount]> (allowance t)))
  else None.

(** The storage of [ZKLending] together with the contracts it calls: the
    verifier behind [ISnarkJSVerifier], the pair the oracle's
    [getLatestPrice] returns, the two tokens, and the ledger's own
    address. *)
Record State := mkState {
  collateralBalance : gmap Z Z;
  borrowBalance : gmap Z Z;
  liquidationThreshold : Z;
  collateralizationRatio : Z;
  verifier : Proof -> list Z -> bool;
  priceOracle : Z * Z;
  stableToken : ERC20;
  collateralToken : ERC20;
  this : address
}.

Definition set_collateralBalance (m : gmap Z Z) (st : State) : State :=
  mkState m (borrowBalance st) (liquidationThreshold st)
    (collateralizationRatio st) (verifier st) (priceOracle st)
    (stableToken st) (collateralToken st) (this st).

Definition set_borrowBalance (m : gmap Z Z) (st : State) : State :=
  mkState (collateralBalance st) m (liquidationThreshold st)
    (collateralizationRatio st) (verifier st) (priceOracle st)
    (stableToken st) (collateralToken st) (this st).

Definition set_stableToken (t : ERC20) (st : State) : State :=
  mkState (collateralBalance st) (borrowBalance st) (liquidationThreshold st)
    (collateralizationRatio st) (verifier st) (priceOracle st)
    t (collateralToken st) (this st).

Definition set_collateralToken (t : ERC20) (st : State) : State :=
  mkState (collateralBalance st) (borrowBalance st) (liquidationThreshold st)
    (collateralizationRatio st) (verifier st) (priceOracle st)
    (stableToken st) t (this st).

Definition token_call (r : option ERC20) (reason : string) : result Error ERC20 :=
  match r with
  | Some t => Ok t
  | None => Err (Revert reason)
  end.

Definition index (l : list Z) (i : nat) : result Error Z :=
  match nth_error l i with
  | Some x => Ok x
  | None => Err (Panic 50)
  end.

(** [getMaxBorrowable(user)] *)
Definition getMaxBorrowable (user : address) (st : State) : result Error Z :=
  let (price, decimals) := priceOracle st in
  do! require (0 <? price) "Invalid price" in
  let! prod := mul (balance (collateralBalance st) user) price in
  let! scale := pow10 decimals in
  let! collateralValue := div prod scale in
  let! scaled := mul collateralValue 100 in
  div scaled (collateralizationRatio st).

(** [isPositionSolvent(user, collateralAmount)] *)
Definition isPositionSolvent (user : address) (collateralAmount : Z) (st : State)
  : result Error bool :=
  if balance (borrowBalance st) user =? 0 then Ok true else
  let (price, decimals) := priceOracle st in
  do! require (0 <? price) "Invalid price" in
  let! prod := mul collateralAmount price in
  let! scale := pow10 decimals in
  let! collateralValue := div prod scale in
  let! owed := mul (balance (borrowBalance st) user) (collateralizationRatio st) in
  let! requiredCollateral := div owed 100 in
  Ok (requiredCollateral <=? collateralValue).

(** [getPositionHealth(user)] *)
Definition getPositionHealth (user : address) (st : State) : result Error Z :=
  if balance (borrowBalance st) user =? 0 then Ok MAX_UINT256 else
  let (price, decimals) := priceOracle st in
  do! require (0 <? price) "Invalid price" in
  let! prod := mul (balance (collateralBalance st) user) price in
  let! scale := pow10 decimals in
  let! collateralValue := div prod scale in
  let! owed := mul (balance (borrowBalance st) user) (collateralizationRatio st) in
  let! requiredCollateral := div owed 100 in
  let! scaled := mul collateralValue 100 in
  div scaled requiredCollateral.

(** [depositCollateral(amount)], called by [sender]. *)
Definition depositCollateral (sender : address) (amount : Z) (st : State)
  : result Error State :=
  do! require (0 <? amount) "amount=0" in
  let! tok := token_call
    (transferFrom (collateralToken st) (this st) sender (this st) amount)
    "Transfer failed" in
  let st1 := set_collateralToken tok st in
  let! total := add (balance (collateralBalance st1) sender) amount in
  Ok (set_collateralBalance (<[sender := total]> (collateralBalance st1)) st1).

(** [borrow(amount, a, b, c, publicSignals)], called by [sender]. *)
Definition borrow (sender : address) (amount : Z) (pf : Proof)
  (publicSignals : list Z) (st : State) : result Error State :=
  do! require (0 <? amount) "amount=0" in
  let! wanted := add (balance (borrowBalance st) sender) amount in
  let! limit := getMaxBorrowable sender st in
  do! require (wanted <=? limit) "Exceeds max borrowable" in
  let proofValid := verifier st pf publicSignals in
  do! require proofValid "Invalid ZK proof" in
  do! require (2 <=? Z.of_nat (length publicSignals)) "Invalid public signals" in
  let! signal0 := index publicSignals 0 in
  do! require (signal0 =? sender) "User address mismatch" in
  let! signal1 := index publicSignals 1 in
  do! require (signal1 =? amount) "Borrow amount mismatch" in
  let! debt := add (balance (borrowBalance st) sender) amount in
  let st1 := set_borrowBalance (<[sender := debt]> (borrowBalance st)) st in
  let! tok := token_call
    (transfer (stableToken st1) (this st1) sender amount) "Transfer failed" in
  Ok (set_stableToken tok st1).

(** [repay(amount)], called by [sender]. *)
Definition repay (sender : address) (amount : Z) (st : State)
  : result Error State :=
  do! require (0 <? amount) "amount=0" in
  let! tok := token_call
    (transferFrom (stableToken st) (this st) sender (this st) amount)
    "Transfer failed" in
  let st1 := set_stableToken tok st in
  if balance (borrowBalance st1) sender <=? amount
  then Ok (set_borrowBalance (<[sender := 0]> (borrowBalance st1)) st1)
  else
    let! debt := sub (balance (borrowBalance st1) sender) amount in
    Ok (set_borrowBalance (<[sender := debt]> (borrowBalance st1)) st1).

(** [withdrawCollateral(amount)], called by [sender]. *)
Definition withdrawCollateral (sender : address) (amount : Z) (st : State)
  : result Error State :=
  do! require (0 <? amount) "amount=0" in
  do! require (amount <=? balance (collateralBalance st) sender)
    "Insufficient collateral" in
  let! remainingCollateral := sub (balance (collateralBalance st) sender) amount in
  let! solvent := isPositionSolvent sender remainingCollateral st in
  do! require solvent "Position would become insolvent" in
  let! left := sub (balance (collateralBalance st) sender) amount in
  let st1 := set_collateralBalance (<[sender := left]> (collateralBalance st)) st in
  let! tok := token_call
    (transfer (collateralToken st1) (this st1) sender amount) "Transfer failed" in
  Ok (set_collateralToken tok st1).

(** A transaction: a call that fails reverts every change it made, so the
    state after it is the state before it.  (The [nonReentrant] guard of
    the four calls never fires here: the tokens above do not call back.) *)
Definition transact (call : State -> result Error State) (st : State)
  : State * option Error :=
  match call st with
  | Ok st' => (st', None)
  | Err e => (st, Some e)
  end.

(** [VerifierAdapter.verifyProofWithValidation], over the adapter's
    immutable [verifier]. *)
Definition verifyProofWithValidation (verifier : Proof -> list Z -> bool)
  (pf : Proof) (input : list Z) (expectedUser : address) (expectedAmount : Z)
  : bool :=
  let proofValid := verifier pf input in
  if negb proofValid then false
  else if Z.of_nat (length input) <? 2 then false
  else if negb (nth 0 input 0 =? expectedUser) then false
  else if negb (nth 1 input 0 =? expectedAmount) then false
  else true.

(** ** The rest of the ledger: liquidation, administration, deployment *)

(** [liquidate(user)], called by [sender]. *)
Definition liquidate (sender user : address) (st : State) : result Error State :=
  let! solvent := isPositionSolvent user (balance (collateralBalance st) user) st in
  do! require (negb solvent) "Position is solvent" in
  let collateralAmount := balance (collateralBalance st) user in
  let debtAmount := balance (borrowBalance st) user in
  let st1 := set_collateralBalance (<[user := 0]> (collateralBalance st)) st in
  let st2 := set_borrowBalance (<[user := 0]> (borrowBalance st1)) st1 in
  let! tok := token_call
    (transfer (collateralToken st2) (this st2) sender collateralAmount)
    "Collateral transfer failed" in
  let st3 := set_collateralToken tok st2 in
  let! paid := token_call
    (transferFrom (stableToken st3) (this st3) sender (this st3) debtAmount)
    "Debt payment failed" in
  Ok (set_stableToken paid st3).

Definition set_liquidationThreshold (t : Z) (st : State) : State :=
  mkState (collateralBalance st) (borrowBalance st) t
    (collateralizationRatio st) (verifier st) (priceOracle st)
    (stableToken st) (collateralToken st) (this st).

Definition set_collateralizationRatio (r : Z) (st : State) : State :=
  mkState (collateralBalance st) (borrowBalance st) (liquidationThreshold st)
    r (verifier st) (priceOracle st)
    (stableToken st) (collateralToken st) (this st).

Definition set_verifier (v : Proof -> list Z -> bool) (st : State) : State :=
  mkState (collateralBalance st) (borrowBalance st) (liquidationThreshold st)
    (collateralizationRatio st) v (priceOracle st)
    (stableToken st) (collateralToken st) (this st).

Definition set_priceOracle (o : Z * Z) (st : State) : State :=
  mkState (collateralBalance st) (borrowBalance st) (liquidationThreshold st)
    (collateralizationRatio st) (verifier st) o
    (stableToken st) (collateralToken st) (this st).

(** The deployed contract: its storage and the owner [Ownable] records
    (the deployer).  [onlyOwner] refuses every other caller with the
    message the tests expect. *)
Record Deployment := mkDeployment {
  owner : address;
  ledger : State
}.

Definition onlyOwner (sender : address) (d : Deployment) : result Error unit :=
  require (sender =? owner d) "Ownable: caller is not the owner".

Definition setVerifier (sender : address) (v : Proof -> list Z -> bool)
  (d : Deployment) : result Error Deployment :=
  do! onlyOwner sender d in
  Ok (mkDeployment (owner d) (set_verifier v (ledger d))).

Definition setPriceOracle (sender : address) (o : Z * Z) (d : Deployment)
  : result Error Deployment :=
  do! onlyOwner sender d in
  Ok (mkDeployment (owner d) (set_priceOracle o (ledger d))).

Definition setCollateralizationRatio (sender : address) (_ratio : Z)
  (d : Deployment) : result Error Deployment :=
  do! onlyOwner sender d in
  do! require (100 <=? _ratio) "Ratio must be >= 100%" in
  Ok (mkDeployment (owner d) (set_collateralizationRatio _ratio (ledger d))).

Definition setLiquidationThreshold (sender : address) (_threshold : Z)
  (d : Deployment) : result Error Deployment :=
  do! onlyOwner sender d in
  do! require (_threshold <=? 100) "Threshold must be <= 100%" in
  Ok (mkDeployment (owner d) (set_liquidationThreshold _threshold (ledger d))).

(** The constructor and the initial values of the state variables. *)
Definition constructor (deployer : address) (_stable _collateral : ERC20)
  (_verifier : Proof -> list Z -> bool) (_priceOracle : Z * Z) (self : address)
  : Deployment :=
  mkDeployment deployer
    (mkState ∅ ∅ 75 150 _verifier _priceOracle _stable _collateral self).

(** The calls of the contract, and a report of the oracle (the price
    contract changes its answer on its own). *)
Inductive Call :=
| DepositCollateral (amount : Z)
| Borrow (amount : Z) (pf : Proof) (publicSignals : list Z)
| Repay (amount : Z)
| WithdrawCollateral (amount : Z)
| Liquidate (user : address)
| SetVerifier (v : Proof -> list Z -> bool)
| SetPriceOracle (o : Z * Z)
| SetCollateralizationRatio (_ratio : Z)
| SetLiquidationThreshold (_threshold : Z)
| OracleReports (o : Z * Z).

Definition on_ledger (f : State -> result Error State) (d : Deployment)
  : result Error Deployment :=
  let! st := f (ledger d) in Ok (mkDeployment (owner d) st).

Definition call (sender : address) (c : Call) (d : Deployment)
  : result Error Deployment :=
  match c with
  | DepositCollateral amount => on_ledger (depositCollateral sender amount) d
  | Borrow amount pf signals => on_ledger (borrow sender amount pf signals) d
  | Repay amount => on_ledger (repay sender amount) d
  | WithdrawCollateral amount => on_ledger (withdrawCollateral sender amount) d
  | Liquidate user => on_ledger (liquidate sender user) d
  | SetVerifier v => setVerifier sender v d
  | SetPriceOracle o => setPriceOracle sender o d
  | SetCollateralizationRatio r => setCollateralizationRatio sender r d
  | SetLiquidationThreshold t => setLiquidationThreshold sender t d
  | OracleReports o => Ok (mkDeployment (owner d) (set_priceOracle o (ledger d)))
  end.

(** A transaction either goes through or is reverted as a whole. *)
Definition execute (tx : address * Call) (d : Deployment) : Deployment :=
  match call (fst tx) (snd tx) d with
  | Ok d' => d'
  | Err _ => d
  end.

Definition run (txs : list (address * Call)) (d : Deployment) : Deployment :=
  fold_left (fun d tx => execute tx d) txs d.

(** The sum of a [mapping(address => uint256)]. *)
Definition total (m : gmap Z Z) : Z := map_fold (fun _ v acc => v + acc) 0 m.

(** What the ledger holds of each token. *)
Definition collateral_held (st : State) : Z :=
  balance (balanceOf (collateralToken st)) (this st).
Definition stable_held (st : State) : Z :=
  balance (balanceOf (stableToken st)) (this st).

(** The ledger's collateral holdings beyond the balances it records, and
    its stable holdings together with the debts it records. *)
Definition collateral_surplus (st : State) : Z :=
  collateral_held st - total (collateralBalance st).
Definition lender_position (st : State) : Z :=
  stable_held st + total (borrowBalance st).

(** The state variables stay within what the setters and the checked
    arithmetic allow. *)
Definition well_formed (st : State) : Prop :=
  100 <= collateralizationRatio st /\
  liquidationThreshold st <= 100 /\
  (forall a, 0 <= balance (collateralBalance st) a) /\
  (forall a, 0 <= balance (borrowBalance st) a).


(** A view leaves a result as it is up to a change of the state. *)
Definition map_result {E A B} (f : A -> B) (r : result E A) : result E B :=
  match r with
  | Ok a => Ok (f a)
  | Err e => Err e
  end.

(** The failures of [borrow] that have to do with money rather than with
    the proof: a zero amount, the borrowing limit, the oracle, the stable
    token, the checked arithmetic. *)
Definition financial (e : Error) : Prop :=
  e = Revert "amount=0" \/ e = Revert "Exceeds max borrowable" \/
  e = Revert "Invalid price" \/ e = Revert "Transfer failed" \/
  e = Panic 17 \/ e = Panic 18.

(** Sample states: user [1] holds [coll] units of collateral and owes
    [debt]; the oracle reports [price] with no decimals; the ledger, at
    address [999], holds a million stable tokens and [coll] collateral
    tokens; user [1] holds a thousand stable tokens and has approved the
    ledger for all of them; the verifier accepts exactly the signals
    [[1; 50000; 200000; 133333; 1]]. *)
Definition sample_verifier (pf : Proof) (P : list Z) : bool :=
  bool_decide (P = [1; 50000; 200000; 133333; 1]).

Definition sample_proof : Proof := mkProof (1, 2) ((3, 4), (5, 6)) (7, 8).

Definition sample (coll debt price : Z) : State :=
  mkState {[ 1 := coll ]} {[ 1 := debt ]} 75 150 sample_verifier (price, 0)
    (mkERC20 {[ 999 := 1000000; 1 := 1000 ]} {[ (1, 999) := 1000 ]})
    (mkERC20 {[ 999 := coll ]} ∅)
    999.

(** A deployment by account [7] at address [999]: the ledger starts with a
    million stable tokens; user [1] holds 20000 stable tokens and 1000
    collateral tokens and has approved the ledger for both; the oracle
    reports a price of 2000 without decimals.  And a course of
    transactions on it: user [1] deposits 100, borrows 50000, repays 60000
    and withdraws 40; user [2] then tries to lower the ratio, and the
    owner raises it. *)
Definition genesis : Deployment :=
  constructor 7
    (mkERC20 {[ 999 := 1000000; 1 := 20000 ]} {[ (1, 999) := 100000 ]})
    (mkERC20 {[ 1 := 1000 ]} {[ (1, 999) := 1000 ]})
    sample_verifier (2000, 0) 999.

Definition scenario : list (address * Call) :=
  [ (1, DepositCollateral 100);
    (1, Borrow 50000 sample_proof [1; 50000; 200000; 133333; 1]);
    (1, Repay 60000);
    (1, WithdrawCollateral 40);
    (2, SetCollateralizationRatio 50);
    (7, SetCollateralizationRatio 200) ].

(** The development verifier [contracts/ZKVerifier.sol].  The contract
    is not among the sources (nor is the [Verifier.sol] snarkjs
    generates); DEPLOYMENT.md describes it, "Returns [true] for all
    proofs (development only)", and the test suite borrows against it
    with a mock proof. *)
Definition ZKVerifier (pf : Proof) (P : list Z) : bool := true.

(** A ledger deployed with the development verifier: users [1] and [2]
    hold 100 units of collateral each, at price 2000. *)
Definition stub_state : State :=
  mkState {[ 1 := 100; 2 := 100 ]} ∅ 75 150 ZKVerifier (2000, 0)
    (mkERC20 {[ 999 := 1000000 ]} ∅)
    (mkERC20 {[ 999 := 200 ]} ∅)
    999.

End Ledger.

(** * The proof files: [JSON.stringify], [JSON.parse] and the file system *)

Module Json.
Local Open Scope char_scope.

(** The values a proof file holds.  Numbers are left out: JavaScript reads
    them as floating point, and snarkjs writes every coordinate as a
    decimal string. *)
#[local] Unset Elimination Schemes.
Inductive json :=
| JNull
| JBool (b : bool)
| JStr (s : string)
| JArr (items : list json)
| JObj (members : list (string * json)).
#[local] Set Elimination Schemes.

Definition text : Type := list ascii.

(** [SyntaxError] is the exception of [JSON.parse].  [Unsupported] marks a
    text that leaves the part of JSON modelled here (numbers, escape
    sequences, characters beyond ASCII, repeated or numeric keys), on which
    the model says nothing about [JSON.parse]. *)
Inductive ParseError := SyntaxError | Unsupported | OutOfFuel.

Definition quote : ascii := "034".
Definition backslash : ascii := "092".
Definition newline : ascii := "010".

Definition is_ws (c : ascii) : bool :=
  (c =? " ") || (c =? "009") || (c =? "010") || (c =? "013").

Fixpoint skip_ws (s : text) : text :=
  match s with
  | c :: r => if is_ws c then skip_ws r else s
  | [] => []
  end.

Definition is_digit (c : ascii) : bool :=
  (48 <=? nat_of_ascii c)%nat && (nat_of_ascii c <=? 57)%nat.

(** A character [JSON.stringify] writes as it is, and [JSON.parse] reads
    as it is, inside a string. *)
Definition plain_char (c : ascii) : bool :=
  (32 <=? nat_of_ascii c)%nat && (nat_of_ascii c <=? 127)%nat &&
  negb (c =? quote) && negb (c =? backslash).

Fixpoint plain (s : string) : bool :=
  match s with
  | EmptyString => true
  | String c r => plain_char c && plain r
  end.

Fixpoint all_digits (s : string) : bool :=
  match s with
  | EmptyString => true
  | String c r => is_digit c && all_digits r
  end.

(** A key JavaScript keeps in insertion order: not an array index. *)
Definition ordinary_key (k : string) : bool :=
  plain k && negb (all_digits k && negb (String.eqb k EmptyString)).

Fixpoint distinct (ks : list string) : bool :=
  match ks with
  | [] => true
  | k :: r => negb (existsb (String.eqb k) r) && distinct r
  end.

Definition keys_ok (ks : list string) : bool :=
  forallb ordinary_key ks && distinct ks.

(** ** [JSON.parse] *)

Fixpoint parse_string (s : text) : result ParseError (string * text) :=
  match s with
  | [] => Err SyntaxError
  | c :: r =>
    if c =? quote then Ok (EmptyString, r)
    else if c =? backslash then Err Unsupported
    else if (nat_of_ascii c <? 32)%nat then Err SyntaxError
    else if (127 <? nat_of_ascii c)%nat then Err Unsupported
    else let! sr := parse_string r in Ok (String c (fst sr), snd sr)
  end.

Fixpoint strip_prefix (pre s : text) : option text :=
  match pre with
  | [] => Some s
  | c :: pre' =>
    match s with
    | d :: s' => if c =? d then strip_prefix pre' s' else None
    | [] => None
    end
  end.

Definition lit_null : text := list_ascii_of_string "null".
Definition lit_true : text := list_ascii_of_string "true".
Definition lit_false : text := list_ascii_of_string "false".

Definition parse_literal (s : text) : result ParseError (json * text) :=
  match strip_prefix lit_null s with
  | Some r => Ok (JNull, r)
  | None =>
    match strip_prefix lit_true s with
    | Some r => Ok (JBool true, r)
    | None =>
      match strip_prefix lit_false s with
      | Some r => Ok (JBool false, r)
      | None =>
        match s with
        | c :: _ => if is_digit c || (c =? "-") then Err Unsupported
                    else Err SyntaxError
        | [] => Err SyntaxError
        end
      end
    end
  end.

Fixpoint parse_value (fuel : nat) (s : text) : result ParseError (json * text) :=
  match fuel with
  | O => Err OutOfFuel
  | S fuel' =>
    match skip_ws s with
    | [] => Err SyntaxError
    | c :: r =>
      if c =? "{" then
        match skip_ws r with
        | [] => Err SyntaxError
        | c' :: r' =>
          if c' =? "}" then Ok (JObj [], r')
          else
            let! ms := parse_members fuel' (c' :: r') in
            if keys_ok (map fst (fst ms)) then Ok (JObj (fst ms), snd ms)
            else Err Unsupported
        end
      else if c =? "[" then
        match skip_ws r with
        | [] => Err SyntaxError
        | c' :: r' =>
          if c' =? "]" then Ok (JArr [], r')
          else
            let! vs := parse_elements fuel' (c' :: r') in
            Ok (JArr (fst vs), snd vs)
        end
      else if c =? quote then
        let! sr := parse_string r in Ok (JStr (fst sr), snd sr)
      else parse_literal (c :: r)
    end
  end
with parse_elements (fuel : nat) (s : text)
  : result ParseError (list json * text) :=
  match fuel with
  | O => Err OutOfFuel
  | S fuel' =>
    let! v := parse_value fuel' s in
    match skip_ws (snd v) with
    | [] => Err SyntaxError
    | c :: r =>
      if c =? "," then
        let! vs := parse_elements fuel' r in Ok (fst v :: fst vs, snd vs)
      else if c =? "]" then Ok ([fst v], r)
      else Err SyntaxError
    end
  end
with parse_members (fuel : nat) (s : text)
  : result ParseError (list (string * json) * text) :=
  match fuel with
  | O => Err OutOfFuel
  | S fuel' =>
    match skip_ws s with
    | [] => Err SyntaxError
    | c :: r =>
      if c =? quote then
        let! k := parse_string r in
        match skip_ws (snd k) with
        | [] => Err SyntaxError
        | c2 :: r2 =>
          if c2 =? ":" then
            let! v := parse_value fuel' r2 in
            match skip_ws (snd v) with
            | [] => Err SyntaxError
            | c3 :: r3 =>
              if c3 =? "," then
                let! ms := parse_members fuel' r3 in
                Ok ((fst k, fst v) :: fst ms, snd ms)
              else if c3 =? "}" then Ok ([(fst k, fst v)], r3)
              else Err SyntaxError
            end
          else Err SyntaxError
        end
      else Err SyntaxError
    end
  end.

(** [JSON.parse(text)]: one value, then nothing but white space. *)
Definition JSON_parse (s : text) : result ParseError json :=
  let! v := parse_value (2 * length s + 2) s in
  match skip_ws (snd v) with
  | [] => Ok (fst v)
  | _ :: _ => Err SyntaxError
  end.

(** ** [JSON.stringify(value, null, 2)] *)

Fixpoint indent (n : nat) : text :=
  match n with
  | O => []
  | S n' => " " :: indent n'
  end.

Definition quoted (s : string) : text :=
  quote :: list_ascii_of_string s ++ [quote].

(** The elements after the first, each behind a comma and a line break. *)
Section Join.
Variable item : json -> text.
Variable ind : nat.

Fixpoint join_items (l : list json) : text :=
  match l with
  | [] => []
  | y :: ys => "," :: newline :: indent ind ++ item y ++ join_items ys
  end.

Fixpoint join_fields (l : list (string * json)) : text :=
  match l with
  | [] => []
  | (k, y) :: ys =>
    "," :: newline :: indent ind ++ quoted k ++
    ":" :: " " :: item y ++ join_fields ys
  end.
End Join.

Fixpoint stringify (ind : nat) (v : json) : text :=
  match v with
  | JNull => lit_null
  | JBool true => lit_true
  | JBool false => lit_false
  | JStr s => quoted s
  | JArr [] => ["["; "]"]
  | JArr (x :: xs) =>
    "[" :: newline :: indent (2 + ind) ++ stringify (2 + ind) x ++
    join_items (stringify (2 + ind)) (2 + ind) xs ++
    newline :: indent ind ++ ["]"]
  | JObj [] => ["{"; "}"]
  | JObj ((k, x) :: ms) =>
    "{" :: newline :: indent (2 + ind) ++ quoted k ++
    ":" :: " " :: stringify (2 + ind) x ++
    join_fields (stringify (2 + ind)) (2 + ind) ms ++
    newline :: indent ind ++ ["}"]
  end.

Definition JSON_stringify (v : json) : text := stringify 0 v.

(** The part of JSON the model covers: plain strings, and objects whose
    keys are distinct and ordinary. *)
Fixpoint in_fragment (v : json) : bool :=
  match v with
  | JNull | JBool _ => true
  | JStr s => plain s
  | JArr l => forallb in_fragment l
  | JObj ms =>
    keys_ok (map fst ms) && forallb (fun m => in_fragment (snd m)) ms
  end.

(** ** A Groth16 proof as snarkjs hands it over

    An object with the members [pi_a], [pi_b], [pi_c] (the three curve
    points, every coordinate a decimal string), [protocol] and [curve]. *)
Definition is_coordinate (v : json) : bool :=
  match v with
  | JStr s => all_digits s && negb (String.eqb s EmptyString)
  | _ => false
  end.

Definition is_g1 (v : json) : bool :=
  match v with
  | JArr l => Nat.eqb (length l) 3 && forallb is_coordinate l
  | _ => false
  end.

Definition is_pair (v : json) : bool :=
  match v with
  | JArr l => Nat.eqb (length l) 2 && forallb is_coordinate l
  | _ => false
  end.

Definition is_g2 (v : json) : bool :=
  match v with
  | JArr l => Nat.eqb (length l) 3 && forallb is_pair l
  | _ => false
  end.

Definition is_name (v : json) : bool :=
  match v with
  | JStr s => plain s
  | _ => false
  end.

Definition valid_proof (v : json) : bool :=
  match v with
  | JObj [(k1, a); (k2, b); (k3, c); (k4, pr); (k5, cu)] =>
    String.eqb k1 "pi_a" && String.eqb k2 "pi_b" && String.eqb k3 "pi_c" &&
    String.eqb k4 "protocol" && String.eqb k5 "curve" &&
    is_g1 a && is_g2 b && is_g1 c && is_name pr && is_name cu
  | _ => false
  end.

(** ** The proof file

    [circuits/generate_proof.js] writes the proof with
    [fs.writeFileSync("circuits/proof.json", JSON.stringify(proof, null, 2))];
    [scripts/generate-proof.js] reads it back with
    [JSON.parse(fs.readFileSync(".../circuits/proof.json", "utf8"))] and
    uses the object as it comes. *)
Inductive Failure :=
| NoSuchFile
| ParseFailed (e : ParseError).

Definition proof_file : string := "circuits/proof.json".

Definition writeFileSync (path : string) (data : text) (fs : gmap string text)
  : gmap string text :=
  <[path := data]> fs.

Definition readFileSync (path : string) (fs : gmap string text)
  : result Failure text :=
  match fs !! path with
  | Some data => Ok data
  | None => Err NoSuchFile
  end.

Definition encode (proof : json) : text := JSON_stringify proof.

Definition decode (data : text) : result Failure json :=
  match JSON_parse data with
  | Ok v => Ok v
  | Err e => Err (ParseFailed e)
  end.

Definition save_proof (proof : json) (fs : gmap string text) : gmap string text :=
  writeFileSync proof_file (encode proof) fs.

Definition load_proof (fs : gmap string text) : result Failure json :=
  let! data := readFileSync proof_file fs in decode data.

(** ** Reasoning principles and notions used by the proofs *)

(** Induction over [json], through the lists of its arrays and objects. *)
Section json_induction.
Variable P : json -> Prop.
Hypothesis Pnull : P JNull.
Hypothesis Pbool : forall b, P (JBool b).
Hypothesis Pstr : forall s, P (JStr s).
Hypothesis Parr : forall l, Forall P l -> P (JArr l).
Hypothesis Pobj : forall ms, Forall (fun m => P (snd m)) ms -> P (JObj ms).

Fixpoint json_induction (v : json) : P v :=
  match v with
  | JNull => Pnull
  | JBool b => Pbool b
  | JStr s => Pstr s
  | JArr l =>
    Parr l ((fix all (l : list json) : Forall P l :=
               match l with
               | [] => @Stdlib.Lists.List.Forall_nil _ P
               | x :: xs => @Stdlib.Lists.List.Forall_cons _ P x xs (json_induction x) (all xs)
               end) l)
  | JObj ms =>
    Pobj ms ((fix all (l : list (string * json)) : Forall (fun m => P (snd m)) l :=
                match l with
                | [] => @Stdlib.Lists.List.Forall_nil _ _
                | (k, y) :: xs =>
                  @Stdlib.Lists.List.Forall_cons _ (fun m => P (snd m)) (k, y) xs
                    (json_induction y) (all xs)
                end) ms)
  end.
End json_induction.

(** The characters a printed value can begin with. *)
Definition opens_value (c : ascii) : Prop :=
  c = "{" \/ c = "[" \/ c = quote \/ c = "n" \/ c = "t" \/ c = "f".

(** [v] is read back from its printed form, whatever the indentation, the
    white space before it, the text after it and the fuel beyond the
    length of the printed form. *)
Definition reads_back (v : json) : Prop :=
  forall ind w rest n,
    in_fragment v = true ->
    forallb is_ws w = true ->
    (length (stringify ind v) <= n)%nat ->
    parse_value n (w ++ stringify ind v ++ rest) = Ok (v, rest).

(** A parser stays within its fuel on [s] when it does not stop for lack
    of fuel and every result leaves less text than [s]. *)
Definition within_fuel {A} (s : text) (r : result ParseError (A * text)) : Prop :=
  r <> Err OutOfFuel /\
  forall a rest, r = Ok (a, rest) -> (length rest < length s)%nat.

(** A proof as [snarkjs groth16 prove] writes it (coordinates shortened). *)
Definition example_proof : json :=
  JObj [ ("pi_a"%string, JArr [JStr "12"; JStr "34"; JStr "1"]);
         ("pi_b"%string, JArr [ JArr [JStr "1"; JStr "2"];
                                JArr [JStr "3"; JStr "4"];
                                JArr [JStr "1"; JStr "0"] ]);
         ("pi_c"%string, JArr [JStr "5"; JStr "6"; JStr "1"]);
         ("protocol"%string, JStr "groth16");
         ("curve"%string, JStr "bn128") ].

End Json.

(** * The command-line script [scripts/generate-proof.js] *)

Module Script.
Import Json.
Local Open Scope string_scope.

(** The files the script names, relative to the project root
    ([path.join(__dirname, "../circuits")] and below). *)
Definition wasmFile : string := "circuits/build/collateral_check.wasm".
Definition zkeyFile : string := "circuits/build/collateral_check_final.zkey".
Definition inputFile : string := "circuits/input.json".
Definition witnessFile : string := "circuits/witness.wtns".
Definition proofFile : string := "circuits/proof.json".
Definition publicFile : string := "circuits/public.json".
Definition vkeyFile : string := "circuits/build/verification_key.json".
Definition generate_witness_js : string :=
  "circuits/build/collateral_check_js/generate_witness.js".

(** The three command lines the script hands to [execSync]. *)
Inductive Command :=
| node_generate_witness (script wasm input wtns : string)
| snarkjs_groth16_prove (zkey wtns proof public : string)
| snarkjs_groth16_verify (vkey public proof : string).

Definition witnessCommand : Command :=
  node_generate_witness generate_witness_js wasmFile inputFile witnessFile.
Definition proveCommand : Command :=
  snarkjs_groth16_prove zkeyFile witnessFile proofFile publicFile.
Definition verifyCommand : Command :=
  snarkjs_groth16_verify vkeyFile publicFile proofFile.

(** How a run ends: with [process.exit(code)] or by reaching the end of
    the file (exit code 0); [OutsideFragment] when a file holds JSON the
    model of [JSON.parse] does not cover. *)
Inductive Status :=
| Exit (code : Z)
| OutsideFragment.

Record Outcome := mkOutcome {
  status : Status;
  executed : list Command;
  files : gmap string text
}.

Definition existsSync (path : string) (fs : gmap string text) : bool :=
  match fs !! path with
  | Some _ => true
  | None => false
  end.

(** [JSON.parse(fs.readFileSync(path, "utf8"))] *)
Definition parse_file (path : string) (fs : gmap string text)
  : result Failure json :=
  let! data := readFileSync path fs in decode data.

(** The closing part of the script: both files are parsed and the
    members [pi_a], [pi_b], [pi_c] of the proof are logged.  Reading a
    member of [null] throws; of any other value it gives [undefined] at
    worst.  Every exception ends in the [catch] of the script. *)
Definition display (fs : gmap string text) : Status :=
  match parse_file proofFile fs with
  | Err (ParseFailed Unsupported) => OutsideFragment
  | Err _ => Exit 1
  | Ok proof =>
    match parse_file publicFile fs with
    | Err (ParseFailed Unsupported) => OutsideFragment
    | Err _ => Exit 1
    | Ok publicSignals =>
      match proof with
      | JNull => Exit 1
      | _ => Exit 0
      end
    end
  end.

Section Tools.
(** The tools are not part of the repository: a command leaves a file
    system behind and exits with status 0 ([true]) or not; [execSync]
    throws in the second case. *)
Variable execSync : Command -> gmap string text -> gmap string text * bool.

Definition generate_proof (fs : gmap string text) : Outcome :=
  if negb (existsSync wasmFile fs) then mkOutcome (Exit 1) [] fs else
  if negb (existsSync zkeyFile fs) then mkOutcome (Exit 1) [] fs else
  if negb (existsSync inputFile fs) then mkOutcome (Exit 1) [] fs else
  let (fs1, ok1) := execSync witnessCommand fs in
  if negb ok1 then mkOutcome (Exit 1) [witnessCommand] fs1 else
  let (fs2, ok2) := execSync proveCommand fs1 in
  if negb ok2 then mkOutcome (Exit 1) [witnessCommand; proveCommand] fs2 else
  let (fs3, ok3) := execSync verifyCommand fs2 in
  if negb ok3
  then mkOutcome (Exit 1) [witnessCommand; proveCommand; verifyCommand] fs3
  else mkOutcome (display fs3) [witnessCommand; proveCommand; verifyCommand] fs3.

End Tools.

(** Stand-ins for the tools, for running the script: the witness
    generator writes a witness file, the prover the example proof and
    five signals, and the verifier accepts what the prover left. *)
Definition example_signals : json :=
  JArr [JStr "659918"; JStr "50000"; JStr "200000"; JStr "133333"; JStr "1"].

Definition example_tools (c : Command) (fs : gmap string text)
  : gmap string text * bool :=
  match c with
  | node_generate_witness _ _ _ wtns => (writeFileSync wtns [] fs, true)
  | snarkjs_groth16_prove _ wtns proof public =>
    (writeFileSync public (JSON_stringify example_signals)
       (writeFileSync proof (JSON_stringify example_proof) fs),
     existsSync wtns fs)
  | snarkjs_groth16_verify _ public proof =>
    (fs, existsSync public fs && existsSync proof fs)
  end.

Definition example_files : gmap string text :=
  {[ wasmFile := []; zkeyFile := []; inputFile := [] ]}.

End Script.

(** * Building the circuit, and [circuits/generate_proof.js] *)

Module ProofScript.
Import Json Script.
Local Open Scope string_scope.

(** The files [circuits/generate_proof.js] names beyond those of
    [scripts/generate-proof.js]: the script is run from the project
    root. *)
Definition witnessWasm : string :=
  "circuits/build/collateral_check_js/collateral_check.wasm".
Definition provingKey : string := "circuits/build/collateral_check_0000.zkey".
Definition verificationKey : string := "circuits/verification_key.json".

(** What [generateProof] throws: a file that cannot be read or is not
    JSON, a command that exits with a status other than 0, a failure of
    [snarkjs.groth16.prove] or [snarkjs.groth16.verify];
    [OutsideFragment] when a file holds JSON the model of [JSON.parse]
    does not cover. *)
Inductive Thrown :=
| ReadFailed (path : string) (f : Failure)
| CommandFailed (c : Command)
| ProveFailed
| VerifyFailed
| OutsideFragment (path : string).

Definition read_json (path : string) (fs : gmap string text)
  : result Thrown json :=
  match parse_file path fs with
  | Ok v => Ok v
  | Err (ParseFailed Unsupported) => Err (OutsideFragment path)
  | Err f => Err (ReadFailed path f)
  end.

Definition witnessCommand : Command :=
  node_generate_witness generate_witness_js witnessWasm inputFile witnessFile.

Section Tools.
(** The tools are not part of the repository.  [execSync] runs a command
    as in [scripts/generate-proof.js]; [groth16_prove] reads the proving
    key and the witness from the files named and returns the proof and
    the public signals, or throws; [groth16_verify] returns its verdict,
    or throws. *)
Variable execSync : Command -> gmap string text -> gmap string text * bool.
Variable groth16_prove :
  string -> string -> gmap string text -> option (json * json).
Variable groth16_verify : json -> json -> json -> option bool.

(** [generateProof()]: the files it leaves, and the proof with the
    public signals or what it throws.  The verdict of the local
    verification is logged and nothing else. *)
Definition generateProof (fs : gmap string text)
  : gmap string text * result Thrown (json * json) :=
  match read_json inputFile fs with
  | Err e => (fs, Err e)
  | Ok input =>
    let (fs1, ok) := execSync witnessCommand fs in
    if negb ok then (fs1, Err (CommandFailed witnessCommand)) else
    match groth16_prove provingKey witnessFile fs1 with
    | None => (fs1, Err ProveFailed)
    | Some (proof, publicSignals) =>
      let fs2 := writeFileSync proofFile (JSON_stringify proof) fs1 in
      let fs3 := writeFileSync publicFile (JSON_stringify publicSignals) fs2 in
      match read_json verificationKey fs3 with
      | Err e => (fs3, Err e)
      | Ok vKey =>
        match groth16_verify vKey publicSignals proof with
        | None => (fs3, Err VerifyFailed)
        | Some isValid => (fs3, Ok (proof, publicSignals))
        end
      end
    end
  end.

(** The script run directly: exit status 0 when [generateProof]
    resolves, 1 when it rejects. *)
Definition main (fs : gmap string text) : gmap string text * Z :=
  let (fs', r) := generateProof fs in
  (fs', match r with Ok _ => 0%Z | Err _ => 1%Z end).

End Tools.

Section Toolchain.
(** The two tools that stand between the circuit file and a witness.

    [circom circuits/collateral_check.circom --r1cs --wasm --sym -o
    circuits/build], the command of [scripts/compile-circuit.js]: for a
    file it compiles, circom writes its outputs ([emit]: the constraint
    system, the witness generator [collateral_check_js/]) and exits with
    status 0; for a file it rejects it writes nothing and exits with
    status 1.

    [node generate_witness.js program.wasm input.json witness.wtns]: node
    exits with a status other than 0 when the script is not there, and so
    does the script when the program or the input is not; otherwise the
    program ([calculator]) decides. *)
Variable p : Z.
Variable emit : list (Circuit.Expr * Circuit.Expr) -> list (string * text).
Variable calculator : text -> text -> option text.
Variable snarkjs : Command -> gmap string text -> gmap string text * bool.

Definition circom (fs : gmap string text) : gmap string text * bool :=
  match Circuit.compile p Circuit.collateral_check with
  | Ok system =>
    (fold_right (fun f files => writeFileSync (fst f) (snd f) files) fs
       (emit system), true)
  | Err _ => (fs, false)
  end.

(** [scripts/compile-circuit.js]: the files it leaves and its exit
    status (the build directory it creates holds no file yet). *)
Definition compile_circuit (fs : gmap string text) : gmap string text * Z :=
  let (fs', ok) := circom fs in
  (fs', if ok then 0%Z else 1%Z).

Definition node (script wasm input wtns : string) (fs : gmap string text)
  : gmap string text * bool :=
  match fs !! script, fs !! wasm, fs !! input with
  | Some _, Some program, Some data =>
    match calculator program data with
    | Some witness => (writeFileSync wtns witness fs, true)
    | None => (fs, false)
    end
  | _, _, _ => (fs, false)
  end.

Definition toolchain (c : Command) (fs : gmap string text)
  : gmap string text * bool :=
  match c with
  | node_generate_witness script wasm input wtns => node script wasm input wtns fs
  | _ => snarkjs c fs
  end.

End Toolchain.

(** A project as it is checked out, with an [input.json] for the request
    of 50000 of the scenario (every value a decimal string) and no build
    output. *)
Definition input_json : json :=
  JObj [ ("userCollateralAmount", JStr "100");
         ("collateralPrice", JStr "2000");
         ("userAddress", JStr "659918");
         ("borrowAmount", JStr "50000");
         ("collateralizationRatio", JStr "150") ].

Definition checkout : gmap string text :=
  {[ inputFile := JSON_stringify input_json ]}.

End ProofScript.

(** * Properties of the circuit *)

Module CircuitSpec.
Import Circuit.
Local Open Scope Z_scope.

(** ** What the compiler accepts *)

Lemma each_Err {A E} (f : A -> result E unit) (l : list A) x :
  In x l -> (exists e, f x = Err e) -> exists e, each f l = Err e.
Proof.
  induction l as [|y l IH]; intros Hin [e He]; [contradiction|].
  cbn [each]. destruct (f y) as [[]|e'] eqn:Ey; cbn [bind]; [|eauto].
  destruct Hin as [->|Hin]; [congruence|]. apply IH; eauto.
Qed.

Lemma private_input_rejected p t d :
  In d (declarations t) -> decl_kind d = PrivateInput ->
  exists r, compile p t = Err r.
Proof.
  intros Hin Hk.
  destruct (each_Err parse_declaration (declarations t) d Hin) as [r Hr].
  { unfold parse_declaration. rewrite Hk. eauto. }
  exists r. unfold compile, parse. rewrite Hr. reflexivity.
Qed.

Lemma expression_rejected p t line e :
  In (Expression line e) (body t) -> exists r, compile p t = Err r.
Proof.
  intros Hin.
  destruct (each_Err parse_statement (body t) _ Hin) as [r Hr];
    [simpl; eauto|].
  unfold compile, parse.
  destruct (each parse_declaration (declarations t)) as [[]|r'];
    cbn [bind]; [|eauto].
  rewrite Hr. eauto.
Qed.

Lemma non_quadratic_rejected p t line x e :
  In (ConstrainAssign line x e) (body t) -> quadratic p e = false ->
  exists r, compile p t = Err r.
Proof.
  intros Hin Hq.
  destruct (each_Err (constrain_statement p) (body t) _ Hin) as [r Hr].
  { cbn [constrain_statement]. rewrite Hq. eauto. }
  unfold compile.
  destruct (parse t) as [[]|r']; cbn [bind]; [|eauto].
  rewrite Hr. eauto.
Qed.

Lemma division_by_signal p a x : quadratic p (Div a (Sig x)) = false.
Proof. reflexivity. Qed.

Lemma comparison_of_signals p x y a b :
  quadratic p (Cond (Leq (Sig x) (Sig y)) a b) = false.
Proof. reflexivity. Qed.

Lemma compile_collateral_check p :
  compile p collateral_check = Err (NotInGrammar 75).
Proof. reflexivity. Qed.

Lemma generate_witness_rejected p t i r :
  compile p t = Err r -> generate_witness p t i = Err (CompileError r).
Proof. intros H. unfold generate_witness. rewrite H. reflexivity. Qed.

Lemma generate_witness_collateral_check p i :
  generate_witness p collateral_check i = Err (CompileError (NotInGrammar 75)).
Proof. apply generate_witness_rejected, compile_collateral_check. Qed.

(** Only a [===] or an [assert] can stop a witness generator. *)
Lemma run_without_checks p stmts env :
  (forall s, In s stmts -> checks s = false) ->
  run p env stmts <> Err UnsatisfiableWitness.
Proof.
  revert env. induction stmts as [|s stmts IH]; intros env H; [discriminate|].
  cbn [run].
  assert (Hs : checks s = false) by (apply H; left; reflexivity).
  destruct s; try discriminate; cbn [step bind]; apply IH;
    intros s' Hin; apply H; right; exact Hin.
Qed.

Lemma load_not_unsatisfiable p names input :
  load p names input <> Err UnsatisfiableWitness.
Proof.
  induction names as [|x names IH]; [discriminate|].
  cbn [load]. destruct (input !! x); [|discriminate].
  destruct (load p names input); cbn [bind]; [discriminate|assumption].
Qed.

Lemma no_checks_no_unsatisfiable p t i :
  (forall s, In s (body t) -> checks s = false) ->
  generate_witness p t i <> Err UnsatisfiableWitness.
Proof.
  intros H. unfold generate_witness.
  destruct (compile p t); [|discriminate].
  unfold calculate.
  pose proof (load_not_unsatisfiable p
                (declared PrivateInput t ++ declared Input t) i) as Hl.
  destruct (load p _ i); cbn [bind]; [|assumption].
  apply run_without_checks, H.
Qed.


(** C2, as stated, fails: the template declares thirteen signals, none of
    them a remainder; it holds no [===] constraint, so no equation of
    the form [collateralValue * 100 === maxBorrowable * ratio + r] and no
    range proof; and the compiler produces no constraint system for it. *)
Lemma C2_no_remainder_signal :
  map decl_name (declarations collateral_check)
  = [ "userCollateralAmount"; "collateralPrice"; "userAddress"; "borrowAmount";
      "collateralizationRatio"; "userAddressHash"; "borrowAmountHash";
      "collateralValue"; "maxBorrowable"; "canBorrow"; "collateralValueCalc";
      "maxBorrowableCalc"; "borrowCheck" ]%string /\
  (forall line a b, ~ In (Constrain line a b) (body collateral_check)) /\
  (forall p system, compile p collateral_check <> Ok system).
Proof.
  split; [reflexivity|]. split.
  - intros line a b Hin. cbn [body collateral_check In] in Hin.
    repeat (destruct Hin as [Hin|Hin]; [discriminate|]). contradiction.
  - intros p system. rewrite compile_collateral_check. discriminate.
Qed.

(** C2, amended: the template defines [maxBorrowable] by two statements,
    [maxBorrowableCalc <== (collateralValue * 100) / collateralizationRatio]
    and [maxBorrowable <== maxBorrowableCalc], with no remainder signal
    and no range proof.  The first divides by a signal: it is not a
    quadratic (rank-1) constraint, whatever the field, and the compiler
    accepts no template in which a [<==] divides by a signal. *)
Theorem C2_quotient_is_no_constraint :
  definition_of "maxBorrowableCalc" (body collateral_check)
  = Some (Div (Mul (Sig "collateralValue") (Num 100))
              (Sig "collateralizationRatio")) /\
  definition_of "maxBorrowable" (body collateral_check)
  = Some (Sig "maxBorrowableCalc") /\
  (forall p,
     quadratic p (Div (Mul (Sig "collateralValue") (Num 100))
                      (Sig "collateralizationRatio")) = false) /\
  (forall p t line x a y,
     In (ConstrainAssign line x (Div a (Sig y))) (body t) ->
     forall system, compile p t <> Ok system).
Proof.
  split; [reflexivity|]. split; [reflexivity|].
  split; [intros p; apply division_by_signal|].
  intros p t line x a y Hin system.
  destruct (non_quadratic_rejected p t line x _ Hin (division_by_signal p a y))
    as [r Hr].
  rewrite Hr. discriminate.
Qed.

(** C5: the scenario on the circuit.  Neither the request of 50000 nor
    the request of 150000 gets a witness: both stop at the compiler, so
    there is no [maxBorrowable] output, no proof for the first and no
    [UnsatisfiableWitness] for the second.  Each of the lines 75 to 79
    ([private]), 99 (a [<==] dividing by a signal), 103 (a [<==] of a
    comparison of signals) and 114 (a bare expression) is enough for
    that: no template that keeps one of them yields a witness. *)
Theorem C5_scenario_on_the_circuit :
  (forall p, generate_witness p collateral_check (request 50000)
             = Err (CompileError (NotInGrammar 75))) /\
  (forall p, generate_witness p collateral_check (request 150000)
             = Err (CompileError (NotInGrammar 75))) /\
  (forall p t,
     (exists d, In d (declarations t) /\ decl_kind d = PrivateInput) \/
     In (ConstrainAssign 99 "maxBorrowableCalc"
           (Div (Mul (Sig "collateralValue") (Num 100))
                (Sig "collateralizationRatio"))) (body t) \/
     In (ConstrainAssign 103 "borrowCheck"
           (Cond (Leq (Sig "borrowAmount") (Sig "maxBorrowable")) (Num 1) (Num 0)))
        (body t) \/
     In (Expression 114
           (Leq (Mul (Sig "borrowAmount") (Sig "collateralizationRatio"))
                (Mul (Sig "collateralValue") (Num 100)))) (body t) ->
     forall i w, generate_witness p t i <> Ok w).
Proof.
  split; [intros p; apply generate_witness_collateral_check|].
  split; [intros p; apply generate_witness_collateral_check|].
  intros p t H i w.
  assert (Hr : exists r, compile p t = Err r).
  { destruct H as [(d & Hin & Hk)|[H|[H|H]]].
    - apply (private_input_rejected p t d); assumption.
    - apply (non_quadratic_rejected p t _ _ _ H). reflexivity.
    - apply (non_quadratic_rejected p t _ _ _ H). reflexivity.
    - apply (expression_rejected p t _ _ H). }
  destruct Hr as [r Hr].
  rewrite (generate_witness_rejected p t i r Hr). discriminate.
Qed.

End CircuitSpec.

(** * Properties of [circuits/generate_proof.js] *)

Module ProofScriptSpec.
Import Json Script ProofScript.

Lemma circom_rejects p emit fs : circom p emit fs = (fs, false).
Proof.
  unfold circom. rewrite CircuitSpec.compile_collateral_check. reflexivity.
Qed.

Lemma node_without_script calculator script wasm input wtns fs :
  fs !! script = None -> node calculator script wasm input wtns fs = (fs, false).
Proof. intros H. unfold node. rewrite H. reflexivity. Qed.

(** C4: the solvent request of the scenario (50000 * 150 <= 100 * 2000 *
    100) gets no witness and no proof.  Witness generation stops at the
    compiler; [scripts/compile-circuit.js] exits with status 1 and leaves
    the files as they were, so no witness generator is written; and on
    files without one, [generateProof] of [circuits/generate_proof.js]
    throws at its witness command, whatever the tools and whatever the
    input file holds: it leaves the files as they were, writes no proof,
    and the script exits with status 1.  (When [generateProof] does
    resolve, the witness command has gone through, the proof was made
    under [collateral_check_0000.zkey], and
    [circuits/verification_key.json] was there to be read; the verdict of
    the verification plays no part.) *)
Theorem C4_solvent_request_gets_no_proof :
  (default 0 (Circuit.request 50000 !! "borrowAmount")
   * default 0 (Circuit.request 50000 !! "collateralizationRatio")
   <= default 0 (Circuit.request 50000 !! "userCollateralAmount")
      * default 0 (Circuit.request 50000 !! "collateralPrice") * 100)%Z /\
  (forall p, Circuit.generate_witness p Circuit.collateral_check
               (Circuit.request 50000)
             = Err (Circuit.CompileError (Circuit.NotInGrammar 75))) /\
  (forall p emit fs, compile_circuit p emit fs = (fs, 1%Z)) /\
  (forall calculator snarkjs prove verify fs input,
     fs !! generate_witness_js = None ->
     read_json inputFile fs = Ok input ->
     generateProof (toolchain calculator snarkjs) prove verify fs
     = (fs, Err (CommandFailed witnessCommand)) /\
     main (toolchain calculator snarkjs) prove verify fs = (fs, 1%Z)) /\
  (forall execSync prove verify fs fs' proof signals,
     generateProof execSync prove verify fs = (fs', Ok (proof, signals)) ->
     exists fs1,
       execSync witnessCommand fs = (fs1, true) /\
       prove provingKey witnessFile fs1 = Some (proof, signals) /\
       is_Some (fs' !! verificationKey)).
Proof.
  split; [vm_compute; discriminate|].
  split; [intros p; apply CircuitSpec.generate_witness_collateral_check|].
  split; [|split].
  - intros p emit fs. unfold compile_circuit. rewrite circom_rejects.
    reflexivity.
  - intros calculator snarkjs prove verify fs input Hnone Hin.
    assert (Hg : generateProof (toolchain calculator snarkjs) prove verify fs
                 = (fs, Err (CommandFailed witnessCommand))).
    { unfold generateProof. rewrite Hin.
      unfold witnessCommand at 1. cbn [toolchain].
      rewrite node_without_script by exact Hnone. reflexivity. }
    split; [exact Hg|]. unfold main. rewrite Hg. reflexivity.
  - intros execSync prove verify fs fs' proof signals. unfold generateProof.
    destruct (read_json inputFile fs) as [input|e]; [|discriminate].
    destruct (execSync witnessCommand fs) as [fs1 [|]] eqn:E1;
      cbn [negb]; [|discriminate].
    destruct (prove provingKey witnessFile fs1) as [[pf' sg']|] eqn:E2;
      [|discriminate].
    destruct (read_json verificationKey _) as [vKey|e] eqn:E3; [|discriminate].
    destruct (verify vKey sg' pf'); [|discriminate].
    intros [= <- <- <-]. exists fs1.
    split; [reflexivity|]. split; [exact E2|].
    unfold read_json, parse_file, readFileSync in E3.
    destruct (_ !! verificationKey) as [data|]; [eauto|].
    cbn [bind] in E3. discriminate.
Qed.

(** C4 on the project as it is checked out: building the circuit leaves
    it as it is, and [generateProof] then throws at the witness command
    and writes no [proof.json]. *)
Lemma C4_solvent_request_gets_no_proof_witness :
  compile_circuit Circuit.bn128 (fun _ => []) checkout = (checkout, 1%Z) /\
  generateProof (toolchain (fun _ _ => None) (fun _ fs => (fs, false)))
    (fun _ _ _ => None) (fun _ _ _ => None) checkout
  = (checkout, Err (CommandFailed witnessCommand)) /\
  checkout !! proofFile = None.
Proof.
  destruct C4_solvent_request_gets_no_proof as (_ & _ & Hbuild & Hrun & _).
  split; [apply Hbuild|].
  split; [|reflexivity].
  apply (Hrun (fun _ _ => None) (fun _ fs => (fs, false))
              (fun _ _ _ => None) (fun _ _ _ => None) checkout input_json).
  - reflexivity.
  - vm_compute. reflexivity.
Defined.

End ProofScriptSpec.

(** * Properties of the ledger *)

Module LedgerSpec.
Import Ledger.
Local Open Scope Z_scope.

Lemma bind_Ok {E A B} (r : result E A) (k : A -> result E B) b :
  bind r k = Ok b -> exists a, r = Ok a /\ k a = Ok b.
Proof. destruct r; simpl; intros H; [eauto | discriminate]. Qed.

Lemma require_Ok c reason u : require c reason = Ok u -> c = true.
Proof. unfold require. destruct c; [reflexivity | discriminate]. Qed.

Lemma token_call_Ok r reason t : token_call r reason = Ok t -> r = Some t.
Proof. unfold token_call. destruct r; intros H; [congruence | discriminate]. Qed.

Ltac inv_result H :=
  repeat match type of H with
         | bind _ _ = Ok _ =>
           let a := fresh "a" in
           let Ha := fresh "Ha" in
           apply bind_Ok in H; destruct H as (a & Ha & H)
         end.

Lemma balance_insert_eq (m : gmap Z Z) a x : balance (<[a := x]> m) a = x.
Proof. unfold balance. rewrite lookup_insert_eq. reflexivity. Qed.

Lemma balance_insert_ne (m : gmap Z Z) a b x :
  a <> b -> balance (<[a := x]> m) b = balance m b.
Proof. intros H. unfold balance. rewrite lookup_insert_ne by assumption. reflexivity. Qed.

Lemma move_to (b : gmap Z Z) from to amount :
  from <> to -> balance (move b from to amount) to = balance b to + amount.
Proof.
  intros H. unfold move.
  rewrite balance_insert_eq, balance_insert_ne by assumption. reflexivity.
Qed.

Lemma move_from (b : gmap Z Z) from to amount :
  from <> to -> balance (move b from to amount) from = balance b from - amount.
Proof.
  intros H. unfold move.
  rewrite balance_insert_ne by congruence.
  rewrite balance_insert_eq. reflexivity.
Qed.

(** The ledger's own [getMaxBorrowable] on the scenario of the
    specification (100 units at price 2000, ratio 150). *)
Lemma scenario_getMaxBorrowable :
  getMaxBorrowable 1 (sample 100 0 2000) = Ok 133333.
Proof. reflexivity. Qed.

(** C8, as stated, fails: with a price of zero and a user without debt,
    [isPositionSolvent] answers [true] and [getPositionHealth] answers
    [type(uint256).max]; neither fails. *)
Lemma C8_zero_debt_skips_the_check :
  fst (priceOracle (sample 100 0 0)) <= 0 /\
  isPositionSolvent 1 100 (sample 100 0 0) = Ok true /\
  getPositionHealth 1 (sample 100 0 0) = Ok MAX_UINT256.
Proof. repeat split; vm_compute; congruence. Qed.

(** C8, amended: for every oracle result with [price <= 0],
    [getMaxBorrowable] fails with "Invalid price"; [isPositionSolvent] and
    [getPositionHealth] fail with "Invalid price" when the user's
    [borrowBalance] is not zero, and with a zero [borrowBalance] they
    return [true] and [type(uint256).max] before the oracle is read. *)
Theorem C8_invalid_price_rejected st user collateralAmount :
  fst (priceOracle st) <= 0 ->
  getMaxBorrowable user st = Err (Revert "Invalid price") /\
  (balance (borrowBalance st) user <> 0 ->
     isPositionSolvent user collateralAmount st = Err (Revert "Invalid price") /\
     getPositionHealth user st = Err (Revert "Invalid price")) /\
  (balance (borrowBalance st) user = 0 ->
     isPositionSolvent user collateralAmount st = Ok true /\
     getPositionHealth user st = Ok MAX_UINT256).
Proof.
  intros Hp.
  unfold getMaxBorrowable, isPositionSolvent, getPositionHealth.
  destruct (priceOracle st) as [price decimals] eqn:Eo. simpl in Hp.
  assert ((0 <? price) = false) as Hlt by (apply Z.ltb_ge; lia).
  rewrite Hlt. simpl.
  split; [reflexivity|]. split.
  - intros Hd. apply Z.eqb_neq in Hd. rewrite Hd. split; reflexivity.
  - intros Hd. rewrite Hd. simpl. split; reflexivity.
Qed.

(** C8, amended, at a price of -5: once for a user who owes 50, once for a
    user who owes nothing. *)
Lemma C8_invalid_price_rejected_witness :
  getMaxBorrowable 1 (sample 100 50 (-5)) = Err (Revert "Invalid price") /\
  isPositionSolvent 1 100 (sample 100 50 (-5)) = Err (Revert "Invalid price") /\
  getPositionHealth 1 (sample 100 50 (-5)) = Err (Revert "Invalid price") /\
  isPositionSolvent 1 100 (sample 100 0 (-5)) = Ok true /\
  getPositionHealth 1 (sample 100 0 (-5)) = Ok MAX_UINT256.
Proof.
  destruct (C8_invalid_price_rejected (sample 100 50 (-5)) 1 100)
    as (Hmax & Hdebt & _); [vm_compute; discriminate|].
  destruct (C8_invalid_price_rejected (sample 100 0 (-5)) 1 100)
    as (_ & _ & Hfree); [vm_compute; discriminate|].
  destruct Hdebt as [Hs Hh]; [vm_compute; discriminate|].
  destruct Hfree as [Hs' Hh']; [reflexivity|].
  repeat split; assumption.
Defined.

Lemma isPositionSolvent_frame user collateralAmount st st' :
  borrowBalance st' = borrowBalance st ->
  priceOracle st' = priceOracle st ->
  collateralizationRatio st' = collateralizationRatio st ->
  isPositionSolvent user collateralAmount st' = isPositionSolvent user collateralAmount st.
Proof.
  intros E1 E2 E3. unfold isPositionSolvent. rewrite E1, E2, E3. reflexivity.
Qed.

(** What a successful solvency check on an indebted user says about the
    numbers. *)
Lemma isPositionSolvent_true user collateralAmount st :
  balance (borrowBalance st) user <> 0 ->
  isPositionSolvent user collateralAmount st = Ok true ->
  collateralAmount * fst (priceOracle st) / 10 ^ snd (priceOracle st)
    >= balance (borrowBalance st) user * collateralizationRatio st / 100.
Proof.
  intros Hd H. unfold isPositionSolvent in H.
  apply Z.eqb_neq in Hd. rewrite Hd in H.
  destruct (priceOracle st) as [price decimals]. simpl.
  inv_result H.
  unfold mul, div, pow10 in *.
  repeat match goal with
         | H : (if ?c then _ else _) = Ok _ |- _ =>
           destruct c eqn:?; [|discriminate]
         | H : (if ?c then Err _ else _) = Ok _ |- _ =>
           destruct c eqn:?; [discriminate|]
         | H : Ok _ = Ok _ |- _ => injection H as H; subst
         end.
  apply Z.leb_le in H. lia.
Qed.

(** C9: for a user with non-zero debt, a [withdrawCollateral(amount)] that
    succeeds leaves collateral worth at least
    [borrowBalance * collateralizationRatio / 100], takes exactly [amount]
    off the collateral balance, leaves the debt as it was, and the
    position it leaves is solvent; a call that fails leaves the state,
    hence both balances, unchanged. *)
Theorem C9_withdrawal_keeps_solvency st sender amount :
  balance (borrowBalance st) sender <> 0 ->
  match withdrawCollateral sender amount st with
  | Ok st' =>
    let remaining := balance (collateralBalance st) sender - amount in
    remaining * fst (priceOracle st) / 10 ^ snd (priceOracle st)
      >= balance (borrowBalance st) sender * collateralizationRatio st / 100 /\
    balance (collateralBalance st') sender = remaining /\
    balance (borrowBalance st') sender = balance (borrowBalance st) sender /\
    isPositionSolvent sender (balance (collateralBalance st') sender) st' = Ok true /\
    transact (withdrawCollateral sender amount) st = (st', None)
  | Err e =>
    transact (withdrawCollateral sender amount) st = (st, Some e) /\
    balance (collateralBalance (fst (transact (withdrawCollateral sender amount) st))) sender
      = balance (collateralBalance st) sender /\
    balance (borrowBalance (fst (transact (withdrawCollateral sender amount) st))) sender
      = balance (borrowBalance st) sender
  end.
Proof.
  intros Hd. unfold transact.
  destruct (withdrawCollateral sender amount st) as [st'|e] eqn:H;
    [|repeat split; reflexivity].
  unfold withdrawCollateral in H.
  apply bind_Ok in H as (? & Hpos & H).
  apply bind_Ok in H as (? & Henough & H).
  apply bind_Ok in H as (remaining & Hrem & H).
  apply bind_Ok in H as (solvent & Hsolv & H).
  apply bind_Ok in H as (? & Hreq & H).
  apply bind_Ok in H as (kept & Hkept & H).
  apply bind_Ok in H as (tok & Htok & H).
  apply require_Ok in Henough, Hreq. subst solvent.
  unfold sub in Hrem, Hkept. rewrite Henough in Hrem, Hkept.
  injection Hrem as <-. injection Hkept as <-. injection H as <-.
  cbv zeta. simpl.
  rewrite balance_insert_eq.
  split; [apply isPositionSolvent_true; assumption|].
  split; [reflexivity|]. split; [reflexivity|]. split; [|reflexivity].
  rewrite <- Hsolv. apply isPositionSolvent_frame; reflexivity.
Qed.

(** C9 at a user who holds 100 units at price 2000, owes 50000 and
    withdraws 20: the 80 units left are worth 160000, above the 75000
    required. *)
Lemma C9_withdrawal_keeps_solvency_witness :
  exists st',
    withdrawCollateral 1 20 (sample 100 50000 2000) = Ok st' /\
    80 * 2000 / 10 ^ 0 >= 50000 * 150 / 100 /\
    balance (collateralBalance st') 1 = 80 /\
    balance (borrowBalance st') 1 = 50000 /\
    isPositionSolvent 1 (balance (collateralBalance st') 1) st' = Ok true.
Proof.
  pose proof (C9_withdrawal_keeps_solvency (sample 100 50000 2000) 1 20) as H.
  destruct (withdrawCollateral 1 20 (sample 100 50000 2000)) as [st'|e] eqn:E;
    [|vm_compute in E; discriminate].
  exists st'. split; [reflexivity|].
  destruct H as (Hval & Hcoll & Hdebt & Hsolv & _); [vm_compute; discriminate|].
  split; [exact Hval|]. split; [exact Hcoll|]. split; [exact Hdebt | exact Hsolv].
Defined.

Lemma transferFrom_moves t spender from to amount t' :
  from <> to ->
  transferFrom t spender from to amount = Some t' ->
  balance (balanceOf t') to = balance (balanceOf t) to + amount /\
  balance (balanceOf t') from = balance (balanceOf t) from - amount.
Proof.
  intros Hne H. unfold transferFrom in H.
  destruct (_ && _); [|discriminate].
  injection H as <-. simpl.
  split; [apply move_to | apply move_from]; assumption.
Qed.

(** C10: a [repay(amount)] that succeeds had [amount > 0]; it leaves a
    debt of [old - amount] when [amount < old] and of [0] otherwise, never
    a negative one; and the ledger's stable-token balance grows by the
    whole [amount], the payer's shrinks by the whole [amount], whatever
    the debt was: nothing paid beyond the debt is returned. *)
Theorem C10_repay_clamps st sender amount st' :
  sender <> this st ->
  0 <= balance (borrowBalance st) sender ->
  repay sender amount st = Ok st' ->
  0 < amount /\
  balance (borrowBalance st') sender =
    (if amount <? balance (borrowBalance st) sender
     then balance (borrowBalance st) sender - amount
     else 0) /\
  0 <= balance (borrowBalance st') sender /\
  balance (balanceOf (stableToken st')) (this st) =
    balance (balanceOf (stableToken st)) (this st) + amount /\
  balance (balanceOf (stableToken st')) sender =
    balance (balanceOf (stableToken st)) sender - amount.
Proof.
  intros Hne Hdebt H. unfold repay in H.
  apply bind_Ok in H as (? & Hpos & H).
  apply bind_Ok in H as (tok & Htok & H).
  apply require_Ok in Hpos. apply Z.ltb_lt in Hpos.
  apply token_call_Ok in Htok.
  apply transferFrom_moves in Htok as [Hto Hfrom]; [|assumption].
  simpl in H.
  destruct (balance (borrowBalance st) sender <=? amount) eqn:Hcmp.
  - injection H as <-. simpl. rewrite balance_insert_eq.
    apply Z.leb_le in Hcmp.
    assert ((amount <? balance (borrowBalance st) sender) = false) as ->
      by (apply Z.ltb_ge; lia).
    repeat split; try assumption; lia.
  - apply bind_Ok in H as (debt & Hsub & H).
    injection H as <-. simpl. rewrite balance_insert_eq.
    apply Z.leb_gt in Hcmp.
    unfold sub in Hsub.
    assert ((amount <=? balance (borrowBalance st) sender) = true) as Hle
      by (apply Z.leb_le; lia).
    rewrite Hle in Hsub. injection Hsub as <-.
    assert ((amount <? balance (borrowBalance st) sender) = true) as ->
      by (apply Z.ltb_lt; lia).
    repeat split; try assumption; lia.
Qed.

(** C10 at an overpayment: user [1] owes 300 and repays 1000; the debt
    becomes 0 and the ledger keeps all 1000. *)
Lemma C10_repay_clamps_witness :
  exists st',
    repay 1 1000 (sample 100 300 2000) = Ok st' /\
    balance (borrowBalance st') 1 = 0 /\
    balance (balanceOf (stableToken st')) 999 = 1000000 + 1000 /\
    balance (balanceOf (stableToken st')) 1 = 1000 - 1000.
Proof.
  destruct (repay 1 1000 (sample 100 300 2000)) as [st'|e] eqn:E;
    [|vm_compute in E; discriminate].
  exists st'. split; [reflexivity|].
  destruct (C10_repay_clamps (sample 100 300 2000) 1 1000 st')
    as (_ & Hdebt & _ & Hthis & Hpayer).
  - vm_compute. discriminate.
  - vm_compute. discriminate.
  - exact E.
  - split; [exact Hdebt|]. split; [exact Hthis | exact Hpayer].
Defined.

(** A [borrow] that succeeds was called by the address in public signal 0
    for the amount in public signal 1, with a proof its verifier accepts. *)
Lemma borrow_Ok_inv st sender amount pf (P : list Z) st' :
  borrow sender amount pf P st = Ok st' ->
  verifier st pf P = true /\
  nth_error P 0 = Some sender /\
  nth_error P 1 = Some amount.
Proof.
  intros H. unfold borrow in H.
  apply bind_Ok in H as (? & _ & H).
  apply bind_Ok in H as (? & _ & H).
  apply bind_Ok in H as (? & _ & H).
  apply bind_Ok in H as (? & _ & H).
  apply bind_Ok in H as (? & Hvalid & H).
  apply bind_Ok in H as (? & _ & H).
  apply bind_Ok in H as (s0 & Hs0 & H).
  apply bind_Ok in H as (? & Huser & H).
  apply bind_Ok in H as (s1 & Hs1 & H).
  apply bind_Ok in H as (? & Hamount & H).
  apply require_Ok in Hvalid, Huser, Hamount.
  apply Z.eqb_eq in Huser, Hamount. subst s0 s1.
  unfold index in Hs0, Hs1.
  destruct (nth_error P 0); [|discriminate].
  destruct (nth_error P 1); [|discriminate].
  injection Hs0 as ->. injection Hs1 as ->. auto.
Qed.


Lemma borrow_needs_valid_proof st sender amount pf P :
  verifier st pf P = false -> exists e, borrow sender amount pf P st = Err e.
Proof.
  intros Hv.
  destruct (borrow sender amount pf P st) as [st'|e] eqn:H; [|eauto].
  apply borrow_Ok_inv in H as (Hv' & _). congruence.
Qed.


Lemma adapter_accepts V pf (P : list Z) user amount :
  verifyProofWithValidation V pf P user amount = true <->
  V pf P = true /\ nth_error P 0 = Some user /\ nth_error P 1 = Some amount.
Proof.
  unfold verifyProofWithValidation. split.
  - intros H. destruct (V pf P); [|discriminate]. cbn [negb] in H.
    destruct (Z.ltb_spec (Z.of_nat (length P)) 2) as [|Hlen]; [discriminate|].
    destruct P as [|s0 [|s1 P]]; [simpl in Hlen; lia | simpl in Hlen; lia |].
    cbn [nth] in H.
    destruct (Z.eqb_spec s0 user) as [->|]; [|discriminate].
    destruct (Z.eqb_spec s1 amount) as [->|]; [|discriminate].
    auto.
  - intros (-> & H0 & H1).
    destruct P as [|s0 [|s1 P]]; try discriminate.
    injection H0 as ->. injection H1 as ->.
    cbn [negb nth length]. rewrite !Z.eqb_refl.
    destruct (Z.ltb_spec (Z.of_nat (S (S (length P)))) 2); [lia|reflexivity].
Qed.

Lemma borrow_fails_financially st sender amount pf (P : list Z) e :
  verifier st pf P = true ->
  nth_error P 0 = Some sender ->
  nth_error P 1 = Some amount ->
  borrow sender amount pf P st = Err e -> financial e.
Proof.
  intros Hv H0 H1.
  destruct P as [|s0 [|s1 P]]; try discriminate.
  injection H0 as ->. injection H1 as ->.
  unfold borrow, financial. rewrite Hv.
  unfold require at 1. destruct (0 <? amount); cbn [bind]; [|intros [= <-]; tauto].
  unfold add at 1. destruct (_ <=? _); cbn [bind]; [|intros [= <-]; tauto].
  destruct (getMaxBorrowable sender st) as [limit|e'] eqn:Hmax; cbn [bind].
  2:{ intros [= <-]. unfold getMaxBorrowable in Hmax.
      destruct (priceOracle st) as [price decimals].
      unfold require, mul, pow10, div in Hmax.
      repeat match type of Hmax with
             | context [if ?c then _ else _] => destruct c; cbn [bind] in Hmax
             end; try discriminate; injection Hmax as <-; tauto. }
  unfold require at 1. destruct (_ <=? limit); cbn [bind]; [|intros [= <-]; tauto].
  cbn [require bind length index nth_error].
  destruct (Z.leb_spec 2 (Z.of_nat (S (S (length P))))); [|lia].
  cbn [bind]. rewrite !Z.eqb_refl. cbn [bind].
  unfold add. destruct (_ <=? _); cbn [bind]; [|intros [= <-]; tauto].
  destruct (transfer _ _ _ _); cbn [token_call bind]; [discriminate|].
  intros [= <-]. tauto.
Qed.




(** ** The signals in the clear *)

(** C6, as stated, fails: the statement that defines [userAddressHash]
    is the pass-through [userAddressHash <== userAddress] of line 108,
    and the ledger lends on signals whose first entry is the caller's
    address itself, while a first signal that is anything else is
    refused, even by a verifier that accepts every proof. *)
Lemma C6_address_in_the_clear :
  In (Circuit.ConstrainAssign 108 "userAddressHash" (Circuit.Sig "userAddress"))
     (Circuit.body Circuit.collateral_check) /\
  (exists st', borrow 1 50000 sample_proof [1; 50000; 200000; 133333; 1]
                 (sample 100 0 2000) = Ok st') /\
  (forall h rest, h <> 1 ->
     borrow 1 50000 sample_proof (h :: 50000 :: rest) stub_state
     = Err (Revert "User address mismatch")).
Proof.
  split; [cbn; tauto|]. split.
  - destruct (borrow 1 50000 sample_proof [1; 50000; 200000; 133333; 1]
                (sample 100 0 2000)) as [st'|e] eqn:E;
      [eauto | vm_compute in E; discriminate].
  - intros h rest Hh. unfold borrow.
    change (getMaxBorrowable 1 stub_state) with (@Ok Error Z 133333).
    change (balance (borrowBalance stub_state) 1) with 0.
    cbn [bind require add Z.add Z.ltb Z.leb Z.compare Pos.compare
         Pos.compare_cont verifier stub_state ZKVerifier length index nth_error].
    change (0 + 50000 <=? MAX_UINT256) with true. cbn [bind].
    change (50000 <=? 133333) with true. cbn [bind require].
    destruct (Z.leb_spec 2 (Z.of_nat (S (S (length rest))))); [|lia].
    cbn [bind]. destruct (Z.eqb_spec h 1); [contradiction|]. reflexivity.
Qed.

(** C6, amended: the circuit computes no hash.  Its outputs
    [userAddressHash] and [borrowAmountHash] are defined by the
    pass-through assignments [userAddressHash <== userAddress] and
    [borrowAmountHash <== borrowAmount], and the ledger relies on it:
    [borrow] and [verifyProofWithValidation] accept public signals only
    when signal 0 is the caller's address itself and signal 1 the amount
    itself, so both are in the clear in every borrow that goes through. *)
Theorem C6_outputs_are_the_inputs :
  Circuit.definition_of "userAddressHash" (Circuit.body Circuit.collateral_check)
  = Some (Circuit.Sig "userAddress") /\
  Circuit.definition_of "borrowAmountHash" (Circuit.body Circuit.collateral_check)
  = Some (Circuit.Sig "borrowAmount") /\
  firstn 2 (Circuit.declared Circuit.Output Circuit.collateral_check)
  = ["userAddressHash"; "borrowAmountHash"]%string /\
  (forall st sender amount pf (P : list Z) st',
     borrow sender amount pf P st = Ok st' ->
     nth_error P 0 = Some sender /\ nth_error P 1 = Some amount) /\
  (forall V pf (P : list Z) user amount,
     verifyProofWithValidation V pf P user amount = true ->
     nth_error P 0 = Some user /\ nth_error P 1 = Some amount).
Proof.
  split; [reflexivity|]. split; [reflexivity|]. split; [reflexivity|].
  split.
  - intros st sender amount pf P st' H.
    apply borrow_Ok_inv in H as (_ & H0 & H1). auto.
  - intros V pf P user amount H.
    apply adapter_accepts in H as (_ & H0 & H1). auto.
Qed.

End LedgerSpec.

(** * Properties of the proof files *)

Module JsonSpec.
Import Json.
Local Open Scope char_scope.

(** ** White space *)

Lemma skip_ws_app w t : forallb is_ws w = true -> skip_ws (w ++ t) = skip_ws t.
Proof.
  induction w as [|c w IH]; simpl; [reflexivity|].
  intros H. apply andb_prop in H as [Hc Hw]. rewrite Hc. auto.
Qed.

Lemma indent_ws n : forallb is_ws (indent n) = true.
Proof. induction n; simpl; auto. Qed.

Lemma skip_ws_indent n t : skip_ws (indent n ++ t) = skip_ws t.
Proof. apply skip_ws_app, indent_ws. Qed.

(** ** The first character of a printed value *)

Lemma stringify_head ind v :
  exists c t, stringify ind v = c :: t /\ opens_value c.
Proof.
  unfold opens_value.
  destruct v as [|[]|s|[|x xs]|[|[k x] ms]]; simpl; eauto 10.
Qed.

Lemma stringify_length ind v : (1 <= length (stringify ind v))%nat.
Proof.
  destruct (stringify_head ind v) as (c & t & -> & _). simpl. lia.
Qed.

(** ** Strings *)

Lemma parse_string_plain s rest :
  plain s = true ->
  parse_string (list_ascii_of_string s ++ quote :: rest) = Ok (s, rest).
Proof.
  induction s as [|c s IH]; simpl; intros H; [reflexivity|].
  apply andb_prop in H as [Hc Hs].
  unfold plain_char in Hc.
  apply andb_prop in Hc as [Hc Hb]. apply andb_prop in Hc as [Hc Hq].
  apply andb_prop in Hc as [Hlo Hhi].
  apply negb_true_iff in Hq, Hb. rewrite Hq, Hb.
  apply Nat.leb_le in Hlo, Hhi.
  destruct (Nat.ltb_spec (nat_of_ascii c) 32); [lia|].
  destruct (Nat.ltb_spec 127 (nat_of_ascii c)); [lia|].
  rewrite IH by assumption. reflexivity.
Qed.

Lemma parse_quoted s rest :
  plain s = true ->
  parse_string (list_ascii_of_string s ++ [quote] ++ rest) = Ok (s, rest).
Proof. apply parse_string_plain. Qed.

(** ** Values *)

Lemma opens_value_not_ws c : opens_value c -> is_ws c = false.
Proof. intros [->|[->|[->|[->|[->| ->]]]]]; reflexivity. Qed.

Lemma skip_ws_value w ind v t :
  forallb is_ws w = true ->
  skip_ws (w ++ stringify ind v ++ t) = stringify ind v ++ t.
Proof.
  intros Hw. rewrite skip_ws_app by assumption.
  destruct (stringify_head ind v) as (c & r & -> & Hc).
  simpl. rewrite (opens_value_not_ws c Hc). reflexivity.
Qed.

Lemma skip_ws_line j t : skip_ws (newline :: indent j ++ t) = skip_ws t.
Proof. change (skip_ws (indent j ++ t) = skip_ws t). apply skip_ws_indent. Qed.

Lemma line_ws k : forallb is_ws (newline :: indent k) = true.
Proof. simpl. apply indent_ws. Qed.

Lemma join_items_cons f k y ys t :
  join_items f k (y :: ys) ++ t =
  "," :: (newline :: indent k) ++ f y ++ join_items f k ys ++ t.
Proof. simpl. rewrite <- !app_assoc. reflexivity. Qed.

Lemma skip_ws_stop c t : is_ws c = false -> skip_ws (c :: t) = c :: t.
Proof. intros H. simpl. rewrite H. reflexivity. Qed.

Lemma parse_elements_join k j xs :
  Forall reads_back xs ->
  forall x w rest n,
    reads_back x ->
    in_fragment x = true ->
    forallb in_fragment xs = true ->
    forallb is_ws w = true ->
    (length (stringify k x) + length (join_items (stringify k) k xs) < n)%nat ->
    parse_elements n
      (w ++ stringify k x ++ join_items (stringify k) k xs ++
       newline :: indent j ++ "]" :: rest)
    = Ok (x :: xs, rest).
Proof.
  induction 1 as [|y ys Hy Hys IH]; intros x w rest n Hx Fx Fxs Hw Hn.
  - destruct n as [|n]; [lia|]. simpl in Hn.
    cbn [parse_elements join_items].
    rewrite (Hx k w _ n Fx Hw) by lia.
    cbn [bind fst snd app].
    rewrite skip_ws_line. reflexivity.
  - destruct n as [|n]; [lia|].
    cbn [join_items length] in Hn. rewrite !length_app in Hn.
    rewrite join_items_cons.
    cbn [parse_elements].
    rewrite (Hx k w _ n Fx Hw) by lia.
    cbn [bind fst snd].
    rewrite skip_ws_stop by reflexivity.
    simpl (Ascii.eqb _ _). cbv iota.
    cbn [forallb] in Fxs. apply andb_prop in Fxs as [Fy Fys].
    rewrite (IH y (newline :: indent k) rest n Hy Fy Fys (line_ws k)) by lia.
    reflexivity.
Qed.

Lemma quoted_app s t :
  quoted s ++ t = quote :: list_ascii_of_string s ++ quote :: t.
Proof. unfold quoted. simpl. rewrite <- app_assoc. reflexivity. Qed.

Lemma join_fields_cons f k key y ys t :
  join_fields f k ((key, y) :: ys) ++ t =
  "," :: (newline :: indent k) ++ quoted key ++
  ":" :: [" "] ++ f y ++ join_fields f k ys ++ t.
Proof.
  unfold quoted. simpl. repeat (rewrite <- app_assoc; simpl). reflexivity.
Qed.

Lemma parse_members_join k j ms :
  Forall (fun m => reads_back (snd m)) ms ->
  forall key x w rest n,
    reads_back x ->
    in_fragment x = true ->
    plain key = true ->
    forallb plain (map fst ms) = true ->
    forallb (fun m => in_fragment (snd m)) ms = true ->
    forallb is_ws w = true ->
    (length (stringify k x) + length (join_fields (stringify k) k ms) < n)%nat ->
    parse_members n
      (w ++ quoted key ++ ":" :: [" "] ++ stringify k x ++
       join_fields (stringify k) k ms ++ newline :: indent j ++ "}" :: rest)
    = Ok ((key, x) :: ms, rest).
Proof.
  induction 1 as [|[key' y] ys Hy Hys IH];
    intros key x w rest n Hx Fx Pk Pks Fms Hw Hn.
  - destruct n as [|n]; [lia|]. simpl in Hn.
    cbn [parse_members join_fields].
    rewrite skip_ws_app by assumption.
    rewrite quoted_app. rewrite skip_ws_stop by reflexivity.
    simpl (Ascii.eqb _ _). cbv iota.
    rewrite parse_string_plain by assumption.
    cbn [bind fst snd].
    rewrite skip_ws_stop by reflexivity.
    simpl (Ascii.eqb _ _). cbv iota.
    rewrite (Hx k [" "] _ n Fx eq_refl) by lia.
    cbn [bind fst snd app].
    rewrite skip_ws_line. reflexivity.
  - destruct n as [|n]; [lia|].
    cbn [join_fields length] in Hn. rewrite !length_app in Hn.
    cbn [length] in Hn. rewrite !length_app in Hn.
    rewrite join_fields_cons.
    cbn [parse_members].
    rewrite skip_ws_app by assumption.
    rewrite quoted_app. rewrite skip_ws_stop by reflexivity.
    simpl (Ascii.eqb _ _). cbv iota.
    rewrite parse_string_plain by assumption.
    cbn [bind fst snd].
    rewrite skip_ws_stop by reflexivity.
    simpl (Ascii.eqb _ _). cbv iota.
    rewrite (Hx k [" "] _ n Fx eq_refl) by lia.
    cbn [bind fst snd].
    rewrite skip_ws_stop by reflexivity.
    simpl (Ascii.eqb _ _). cbv iota.
    cbn [forallb map fst snd] in Pks, Fms.
    apply andb_prop in Pks as [Pk' Pks]. apply andb_prop in Fms as [Fy Fys].
    cbn [snd] in Hy.
    rewrite (IH key' y (newline :: indent k) rest n Hy Fy Pk' Pks Fys (line_ws k))
      by lia.
    reflexivity.
Qed.

Lemma opens_value_not_close c :
  opens_value c -> (c =? "]") = false /\ (c =? "}") = false.
Proof. intros [->|[->|[->|[->|[->| ->]]]]]; split; reflexivity. Qed.

Lemma stringify_array x xs ind rest :
  stringify ind (JArr (x :: xs)) ++ rest =
  "[" :: (newline :: indent (2 + ind)) ++ stringify (2 + ind) x ++
  join_items (stringify (2 + ind)) (2 + ind) xs ++
  newline :: indent ind ++ "]" :: rest.
Proof.
  cbn [stringify]. simpl. repeat (rewrite <- app_assoc; simpl). reflexivity.
Qed.

Lemma stringify_object key x ms ind rest :
  stringify ind (JObj ((key, x) :: ms)) ++ rest =
  "{" :: (newline :: indent (2 + ind)) ++ quoted key ++
  ":" :: [" "] ++ stringify (2 + ind) x ++
  join_fields (stringify (2 + ind)) (2 + ind) ms ++
  newline :: indent ind ++ "}" :: rest.
Proof.
  cbn [stringify]. unfold quoted. simpl.
  repeat (rewrite <- app_assoc; simpl). reflexivity.
Qed.

Lemma keys_ok_plain ks : keys_ok ks = true -> forallb plain ks = true.
Proof.
  unfold keys_ok. intros H. apply andb_prop in H as [H _].
  induction ks as [|k ks IH]; simpl in *; [reflexivity|].
  apply andb_prop in H as [Hk Hks]. unfold ordinary_key in Hk.
  apply andb_prop in Hk as [Hk _]. rewrite Hk. auto.
Qed.

(** Every value of the fragment is read back from its printed form. *)
Lemma stringify_reads_back v : reads_back v.
Proof.
  induction v as [|b|s|l IH|ms IH] using json_induction;
    intros ind w rest n Fv Hw Hn.
  - destruct n as [|n]; [simpl in Hn; lia|].
    cbn [parse_value stringify]. rewrite skip_ws_app by assumption.
    reflexivity.
  - destruct n as [|n]; [destruct b; simpl in Hn; lia|].
    cbn [parse_value]. rewrite skip_ws_app by assumption.
    destruct b; reflexivity.
  - destruct n as [|n]; [simpl in Hn; lia|].
    cbn [parse_value stringify]. rewrite skip_ws_app by assumption.
    rewrite quoted_app. rewrite skip_ws_stop by reflexivity.
    simpl (Ascii.eqb _ _). cbv iota.
    cbn [in_fragment] in Fv.
    rewrite parse_string_plain by assumption. reflexivity.
  - destruct l as [|x xs].
    + destruct n as [|n]; [simpl in Hn; lia|].
      cbn [parse_value stringify]. rewrite skip_ws_app by assumption.
      reflexivity.
    + destruct n as [|n]; [simpl in Hn; lia|].
      rewrite <- (app_nil_r (stringify ind (JArr (x :: xs)))) in Hn.
      rewrite stringify_array in Hn |- *.
      cbn [length] in Hn. rewrite !length_app in Hn.
      cbn [parse_value]. rewrite skip_ws_app by assumption.
      rewrite skip_ws_stop by reflexivity.
      simpl (Ascii.eqb _ _). cbv iota.
      rewrite skip_ws_value by apply line_ws.
      inversion IH as [|? ? Hx Hxs]; subst.
      cbn [in_fragment forallb] in Fv. apply andb_prop in Fv as [Fx Fxs].
      pose proof (parse_elements_join (2 + ind) ind xs Hxs x [] rest n
                    Hx Fx Fxs eq_refl) as Hp.
      cbn [app] in Hp.
      destruct (stringify_head (2 + ind) x) as (c & t & E & Hc).
      destruct (opens_value_not_close c Hc) as [Hc1 _].
      rewrite E in Hp |- *. cbn [app] in Hp |- *. rewrite Hc1.
      rewrite Hp; [reflexivity|].
      rewrite E in Hn. cbn [length] in Hn |- *. lia.
  - destruct ms as [|[key x] ms].
    + destruct n as [|n]; [simpl in Hn; lia|].
      cbn [parse_value stringify]. rewrite skip_ws_app by assumption.
      reflexivity.
    + destruct n as [|n]; [simpl in Hn; lia|].
      rewrite <- (app_nil_r (stringify ind (JObj ((key, x) :: ms)))) in Hn.
      rewrite stringify_object in Hn |- *.
      cbn [length] in Hn. rewrite !length_app in Hn.
      cbn [parse_value]. rewrite skip_ws_app by assumption.
      rewrite skip_ws_stop by reflexivity.
      simpl (Ascii.eqb _ _). cbv iota.
      rewrite skip_ws_app by apply line_ws.
      inversion IH as [|? ? Hx Hxs]; subst. cbn [snd] in Hx.
      cbn [in_fragment] in Fv. apply andb_prop in Fv as [Fk Fv].
      pose proof (keys_ok_plain _ Fk) as Pk.
      cbn [map fst forallb] in Pk. apply andb_prop in Pk as [Pk Pks].
      cbn [forallb snd] in Fv. apply andb_prop in Fv as [Fx Fxs].
      pose proof (parse_members_join (2 + ind) ind ms Hxs key x [] rest n
                    Hx Fx Pk Pks Fxs eq_refl) as Hp.
      cbn [app] in Hp.
      rewrite quoted_app in Hp |- *.
      rewrite skip_ws_stop by reflexivity.
      simpl (Ascii.eqb _ _). cbv iota. cbn [app].
      rewrite Hp.
      * cbn [bind fst snd]. cbn [map fst] in Fk |- *. rewrite Fk. reflexivity.
      * repeat (progress (cbn [length app] in Hn; rewrite ?length_app in Hn)). lia.
Qed.

(** [JSON.parse(JSON.stringify(v, null, 2))] is [v] on the fragment. *)
Lemma parse_stringify v :
  in_fragment v = true -> JSON_parse (JSON_stringify v) = Ok v.
Proof.
  intros Fv. unfold JSON_parse, JSON_stringify.
  pose proof (stringify_reads_back v 0 [] []
                (2 * length (stringify 0 v) + 2) Fv eq_refl) as H.
  cbn [app] in H. rewrite app_nil_r in H.
  rewrite H by lia. reflexivity.
Qed.

(** ** Valid proofs lie in the fragment *)

Lemma digit_plain c : is_digit c = true -> plain_char c = true.
Proof.
  unfold is_digit, plain_char. intros H.
  apply andb_prop in H as [Hlo Hhi]. apply Nat.leb_le in Hlo, Hhi.
  assert (Hq : (c =? quote) = false).
  { apply Ascii.eqb_neq. intros ->.
    change (nat_of_ascii quote) with 34%nat in Hlo. lia. }
  assert (Hb : (c =? backslash) = false).
  { apply Ascii.eqb_neq. intros ->.
    change (nat_of_ascii backslash) with 92%nat in Hhi. lia. }
  rewrite Hq, Hb.
  destruct (Nat.leb_spec 32 (nat_of_ascii c)); [|lia].
  destruct (Nat.leb_spec (nat_of_ascii c) 127); [|lia].
  reflexivity.
Qed.

Lemma all_digits_plain s : all_digits s = true -> plain s = true.
Proof.
  induction s as [|c s IH]; simpl; [reflexivity|].
  intros H. apply andb_prop in H as [Hc Hs].
  rewrite (digit_plain c Hc). auto.
Qed.

Lemma coordinate_in_fragment v : is_coordinate v = true -> in_fragment v = true.
Proof.
  destruct v; simpl; try discriminate.
  intros H. apply andb_prop in H as [H _]. apply all_digits_plain, H.
Qed.

Lemma forallb_impl {A} (f g : A -> bool) l :
  (forall x, f x = true -> g x = true) ->
  forallb f l = true -> forallb g l = true.
Proof.
  intros Hfg. induction l as [|x l IH]; simpl; [reflexivity|].
  intros H. apply andb_prop in H as [Hx Hl].
  rewrite (Hfg x Hx). auto.
Qed.

Lemma g1_in_fragment v : is_g1 v = true -> in_fragment v = true.
Proof.
  destruct v; simpl; try discriminate.
  intros H. apply andb_prop in H as [_ H].
  revert H. apply forallb_impl, coordinate_in_fragment.
Qed.

Lemma pair_in_fragment v : is_pair v = true -> in_fragment v = true.
Proof.
  destruct v; simpl; try discriminate.
  intros H. apply andb_prop in H as [_ H].
  revert H. apply forallb_impl, coordinate_in_fragment.
Qed.

Lemma g2_in_fragment v : is_g2 v = true -> in_fragment v = true.
Proof.
  destruct v; simpl; try discriminate.
  intros H. apply andb_prop in H as [_ H].
  revert H. apply forallb_impl, pair_in_fragment.
Qed.

Lemma name_in_fragment v : is_name v = true -> in_fragment v = true.
Proof. destruct v; simpl; try discriminate. auto. Qed.

Lemma valid_proof_in_fragment v : valid_proof v = true -> in_fragment v = true.
Proof.
  unfold valid_proof.
  destruct v as [| | | |ms]; try discriminate.
  destruct ms as [|[k1 a] [|[k2 b] [|[k3 c] [|[k4 pr] [|[k5 cu] [|? ?]]]]]];
    try discriminate.
  intros H.
  repeat match type of H with
         | (_ && _)%bool = true => apply andb_prop in H as [H ?]
         end.
  repeat match goal with
         | H : String.eqb _ _ = true |- _ => apply String.eqb_eq in H; subst
         end.
  cbn [in_fragment map fst forallb snd].
  rewrite g1_in_fragment, g2_in_fragment, g1_in_fragment,
    name_in_fragment, name_in_fragment by assumption.
  reflexivity.
Qed.

(** C7, as stated, fails: the reader takes whatever [JSON.parse] returns.
    The text [{}] is not a proof, yet it is decoded without any error
    (and a text that is not JSON stops [JSON.parse] with its
    [SyntaxError]). *)
Lemma C7_malformed_proof_accepted :
  decode ["{"; "}"] = Ok (JObj []) /\
  valid_proof (JObj []) = false /\
  load_proof (writeFileSync proof_file ["{"; "}"] ∅) = Ok (JObj []) /\
  decode ["{"] = Err (ParseFailed SyntaxError).
Proof. repeat split; reflexivity. Qed.

(** C7, amended: for every valid proof, reading back the file that
    [JSON.stringify(proof, null, 2)] wrote gives the proof:
    [decode (encode proof) = proof], also through [circuits/proof.json].
    (The reader checks nothing beyond JSON syntax: it has no
    [MalformedProof] error.) *)
Theorem C7_proof_round_trip proof fs :
  valid_proof proof = true ->
  decode (encode proof) = Ok proof /\
  load_proof (save_proof proof fs) = Ok proof.
Proof.
  intros Hv. apply valid_proof_in_fragment in Hv.
  assert (H : decode (encode proof) = Ok proof).
  { unfold decode, encode. rewrite parse_stringify by assumption. reflexivity. }
  split; [exact H|].
  unfold load_proof, save_proof, readFileSync, writeFileSync.
  rewrite lookup_insert_eq. exact H.
Qed.

(** C7, amended, at a proof of the shape snarkjs writes. *)
Lemma C7_proof_round_trip_witness :
  decode (encode example_proof) = Ok example_proof /\
  load_proof (save_proof example_proof ∅) = Ok example_proof.
Proof. apply (C7_proof_round_trip example_proof ∅). reflexivity. Defined.

(** ** The fuel of [JSON_parse] is never used up *)

Lemma skip_ws_length s : (length (skip_ws s) <= length s)%nat.
Proof.
  induction s as [|c s IH]; simpl; [lia|].
  destruct (is_ws c); simpl; lia.
Qed.

Lemma within_fuel_Err {A} s e :
  e <> OutOfFuel -> within_fuel (A := A) s (Err e).
Proof. intros H. split; [congruence | discriminate]. Qed.

Lemma within_fuel_Ok {A} s (a : A) rest :
  (length rest < length s)%nat -> within_fuel s (Ok (a, rest)).
Proof. intros H. split; [discriminate|]. intros a' r' E. injection E as <- <-. exact H. Qed.

Lemma parse_string_within s : within_fuel s (parse_string s).
Proof.
  induction s as [|c s IH]; cbn [parse_string].
  - apply within_fuel_Err. discriminate.
  - destruct (c =? quote); [apply within_fuel_Ok; simpl; lia|].
    destruct (c =? backslash); [apply within_fuel_Err; discriminate|].
    destruct (nat_of_ascii c <? 32)%nat; [apply within_fuel_Err; discriminate|].
    destruct (127 <? nat_of_ascii c)%nat; [apply within_fuel_Err; discriminate|].
    destruct IH as [Hf Hl].
    destruct (parse_string s) as [[k r]|e]; cbn [bind fst snd].
    + apply within_fuel_Ok. specialize (Hl k r eq_refl). simpl. lia.
    + apply within_fuel_Err. congruence.
Qed.

Lemma strip_prefix_length pre s r :
  strip_prefix pre s = Some r -> (length r + length pre = length s)%nat.
Proof.
  revert s. induction pre as [|c pre IH]; intros s; simpl.
  - intros H. injection H as ->. lia.
  - destruct s as [|d s]; [discriminate|].
    destruct (c =? d); [|discriminate].
    intros H. apply IH in H. simpl. lia.
Qed.

Lemma parse_literal_within s : within_fuel s (parse_literal s).
Proof.
  unfold parse_literal.
  destruct (strip_prefix lit_null s) eqn:E1.
  { apply within_fuel_Ok. apply strip_prefix_length in E1. simpl in E1. lia. }
  destruct (strip_prefix lit_true s) eqn:E2.
  { apply within_fuel_Ok. apply strip_prefix_length in E2. simpl in E2. lia. }
  destruct (strip_prefix lit_false s) eqn:E3.
  { apply within_fuel_Ok. apply strip_prefix_length in E3. simpl in E3. lia. }
  destruct s as [|c s]; [apply within_fuel_Err; discriminate|].
  destruct (is_digit c || (c =? "-")); apply within_fuel_Err; discriminate.
Qed.

Lemma parse_within n :
  (forall s, (2 * length s < n)%nat -> within_fuel s (parse_value n s)) /\
  (forall s, (2 * length s + 1 < n)%nat -> within_fuel s (parse_elements n s)) /\
  (forall s, (2 * length s < n)%nat -> within_fuel s (parse_members n s)).
Proof.
  induction n as [|n (IHv & IHe & IHm)].
  { repeat split; intros; lia. }
  split; [|split]; intros s Hs.
  - cbn [parse_value].
    pose proof (skip_ws_length s) as Hws.
    destruct (skip_ws s) as [|c r]; [apply within_fuel_Err; discriminate|].
    cbn [length] in Hws.
    destruct (c =? "{").
    { pose proof (skip_ws_length r) as Hwr.
      destruct (skip_ws r) as [|c' r']; [apply within_fuel_Err; discriminate|].
      cbn [length] in Hwr.
      destruct (c' =? "}"); [apply within_fuel_Ok; lia|].
      destruct (IHm (c' :: r')) as [Hf Hl]; [cbn [length]; lia|].
      destruct (parse_members n (c' :: r')) as [[ms rm]|e]; cbn [bind fst snd].
      - specialize (Hl ms rm eq_refl). cbn [length] in Hl.
        destruct (keys_ok (map fst ms));
          [apply within_fuel_Ok; lia | apply within_fuel_Err; discriminate].
      - apply within_fuel_Err. congruence. }
    destruct (c =? "[").
    { pose proof (skip_ws_length r) as Hwr.
      destruct (skip_ws r) as [|c' r']; [apply within_fuel_Err; discriminate|].
      cbn [length] in Hwr.
      destruct (c' =? "]"); [apply within_fuel_Ok; lia|].
      destruct (IHe (c' :: r')) as [Hf Hl]; [cbn [length]; lia|].
      destruct (parse_elements n (c' :: r')) as [[vs rv]|e]; cbn [bind fst snd].
      - specialize (Hl vs rv eq_refl). cbn [length] in Hl.
        apply within_fuel_Ok. lia.
      - apply within_fuel_Err. congruence. }
    destruct (c =? quote).
    { destruct (parse_string_within r) as [Hf Hl].
      destruct (parse_string r) as [[k rk]|e]; cbn [bind fst snd].
      - specialize (Hl k rk eq_refl). apply within_fuel_Ok. lia.
      - apply within_fuel_Err. congruence. }
    destruct (parse_literal_within (c :: r)) as [Hf Hl].
    split; [exact Hf|].
    intros a rest E. specialize (Hl a rest E). cbn [length] in Hl. lia.
  - cbn [parse_elements].
    destruct (IHv s) as [Hf Hl]; [lia|].
    destruct (parse_value n s) as [[v rv]|e]; cbn [bind fst snd];
      [|apply within_fuel_Err; congruence].
    specialize (Hl v rv eq_refl).
    pose proof (skip_ws_length rv) as Hws.
    destruct (skip_ws rv) as [|c r]; [apply within_fuel_Err; discriminate|].
    cbn [length] in Hws.
    destruct (c =? ",").
    { destruct (IHe r) as [Hf' Hl']; [lia|].
      destruct (parse_elements n r) as [[vs rs]|e]; cbn [bind fst snd].
      - specialize (Hl' vs rs eq_refl). apply within_fuel_Ok. lia.
      - apply within_fuel_Err. congruence. }
    destruct (c =? "]"); [apply within_fuel_Ok; lia|].
    apply within_fuel_Err. discriminate.
  - cbn [parse_members].
    pose proof (skip_ws_length s) as Hws.
    destruct (skip_ws s) as [|c r]; [apply within_fuel_Err; discriminate|].
    cbn [length] in Hws.
    destruct (c =? quote); [|apply within_fuel_Err; discriminate].
    destruct (parse_string_within r) as [Hf Hl].
    destruct (parse_string r) as [[k rk]|e]; cbn [bind fst snd];
      [|apply within_fuel_Err; congruence].
    specialize (Hl k rk eq_refl).
    pose proof (skip_ws_length rk) as Hwk.
    destruct (skip_ws rk) as [|c2 r2]; [apply within_fuel_Err; discriminate|].
    cbn [length] in Hwk.
    destruct (c2 =? ":"); [|apply within_fuel_Err; discriminate].
    destruct (IHv r2) as [Hfv Hlv]; [lia|].
    destruct (parse_value n r2) as [[v rv]|e]; cbn [bind fst snd];
      [|apply within_fuel_Err; congruence].
    specialize (Hlv v rv eq_refl).
    pose proof (skip_ws_length rv) as Hwv.
    destruct (skip_ws rv) as [|c3 r3]; [apply within_fuel_Err; discriminate|].
    cbn [length] in Hwv.
    destruct (c3 =? ",").
    { destruct (IHm r3) as [Hf' Hl']; [lia|].
      destruct (parse_members n r3) as [[ms rs]|e]; cbn [bind fst snd].
      - specialize (Hl' ms rs eq_refl). apply within_fuel_Ok. lia.
      - apply within_fuel_Err. congruence. }
    destruct (c3 =? "}"); [apply within_fuel_Ok; lia|].
    apply within_fuel_Err. discriminate.
Qed.

(** [JSON_parse] gives itself enough fuel for every text. *)
Lemma JSON_parse_fuel s : JSON_parse s <> Err OutOfFuel.
Proof.
  unfold JSON_parse.
  destruct (proj1 (parse_within (2 * length s + 2)) s) as [Hf _]; [lia|].
  destruct (parse_value (2 * length s + 2) s) as [[v r]|e]; cbn [bind fst snd].
  - destruct (skip_ws r); discriminate.
  - congruence.
Qed.

End JsonSpec.

(** * Further properties of the ledger *)

Module LedgerExtra.
Import Ledger LedgerSpec.
Local Open Scope Z_scope.

(** ** Sums of balances *)

Lemma total_insert (m : gmap Z Z) k v :
  total (<[k := v]> m) = total m - balance m k + v.
Proof.
  unfold total, balance.
  assert (Hcomm : forall (m' : gmap Z Z) j1 j2 z1 z2 y,
             j1 <> j2 -> m' !! j1 = Some z1 -> m' !! j2 = Some z2 ->
             z1 + (z2 + y) = z2 + (z1 + y)) by (intros; lia).
  destruct (m !! k) as [x|] eqn:E; simpl.
  - rewrite (map_fold_delete_L _ 0 k x m (Hcomm m) E).
    rewrite <- (insert_delete_eq m k v).
    rewrite map_fold_insert_L; [| apply Hcomm | apply lookup_delete_eq].
    set (rest := map_fold _ 0 (delete k m)). lia.
  - rewrite map_fold_insert_L; [| apply Hcomm | exact E].
    set (rest := map_fold _ 0 m). lia.
Qed.

Lemma nonneg_insert (m : gmap Z Z) k v :
  (forall a, 0 <= balance m a) -> 0 <= v ->
  forall a, 0 <= balance (<[k := v]> m) a.
Proof.
  intros Hm Hv a. destruct (Z.eq_dec k a) as [->|Hne].
  - rewrite balance_insert_eq. exact Hv.
  - rewrite balance_insert_ne by assumption. apply Hm.
Qed.

(** ** What each call does when it goes through *)

Lemma transfer_moves t from to amount t' :
  from <> to ->
  transfer t from to amount = Some t' ->
  amount <= balance (balanceOf t) from /\
  balance (balanceOf t') to = balance (balanceOf t) to + amount /\
  balance (balanceOf t') from = balance (balanceOf t) from - amount.
Proof.
  intros Hne H. unfold transfer in H.
  destruct (Z.leb_spec amount (balance (balanceOf t) from)); [|discriminate].
  injection H as <-. simpl.
  split; [assumption|]. split; [apply move_to | apply move_from]; assumption.
Qed.

Lemma depositCollateral_Ok sender amount st st' :
  depositCollateral sender amount st = Ok st' ->
  exists tok,
    0 < amount /\
    transferFrom (collateralToken st) (this st) sender (this st) amount = Some tok /\
    st' = set_collateralBalance
            (<[sender := balance (collateralBalance st) sender + amount]>
               (collateralBalance st))
            (set_collateralToken tok st).
Proof.
  intros H. unfold depositCollateral in H.
  apply bind_Ok in H as (? & Hpos & H).
  apply bind_Ok in H as (tok & Htok & H).
  apply bind_Ok in H as (sum & Hsum & H).
  apply require_Ok, Z.ltb_lt in Hpos. apply token_call_Ok in Htok.
  unfold add in Hsum. simpl in Hsum.
  destruct (_ <=? _) in Hsum; [|discriminate].
  injection Hsum as <-. injection H as <-.
  exists tok. auto.
Qed.

Lemma borrow_Ok sender amount pf (P : list Z) st st' :
  borrow sender amount pf P st = Ok st' ->
  exists limit tok,
    0 < amount /\
    getMaxBorrowable sender st = Ok limit /\
    balance (borrowBalance st) sender + amount <= limit /\
    transfer (stableToken st) (this st) sender amount = Some tok /\
    st' = set_stableToken tok
            (set_borrowBalance
               (<[sender := balance (borrowBalance st) sender + amount]>
                  (borrowBalance st)) st).
Proof.
  intros H. unfold borrow in H.
  apply bind_Ok in H as (? & Hpos & H).
  apply bind_Ok in H as (wanted & Hwanted & H).
  apply bind_Ok in H as (limit & Hlimit & H).
  apply bind_Ok in H as (? & Hle & H).
  apply bind_Ok in H as (? & _ & H).
  apply bind_Ok in H as (? & _ & H).
  apply bind_Ok in H as (? & _ & H).
  apply bind_Ok in H as (? & _ & H).
  apply bind_Ok in H as (? & _ & H).
  apply bind_Ok in H as (? & _ & H).
  apply bind_Ok in H as (debt & Hdebt & H).
  apply bind_Ok in H as (tok & Htok & H).
  apply require_Ok, Z.ltb_lt in Hpos. apply require_Ok, Z.leb_le in Hle.
  apply token_call_Ok in Htok. simpl in Htok.
  unfold add in Hwanted, Hdebt.
  destruct (_ <=? _) in Hwanted; [|discriminate].
  destruct (_ <=? _) in Hdebt; [|discriminate].
  injection Hwanted as <-. injection Hdebt as <-. injection H as <-.
  exists limit, tok. auto.
Qed.

Lemma repay_Ok sender amount st st' :
  repay sender amount st = Ok st' ->
  exists tok,
    0 < amount /\
    transferFrom (stableToken st) (this st) sender (this st) amount = Some tok /\
    st' = set_borrowBalance
            (<[sender := Z.max 0 (balance (borrowBalance st) sender - amount)]>
               (borrowBalance st))
            (set_stableToken tok st).
Proof.
  intros H. unfold repay in H.
  apply bind_Ok in H as (? & Hpos & H).
  apply bind_Ok in H as (tok & Htok & H).
  apply require_Ok, Z.ltb_lt in Hpos. apply token_call_Ok in Htok.
  simpl in H. exists tok. split; [assumption|]. split; [assumption|].
  destruct (Z.leb_spec (balance (borrowBalance st) sender) amount).
  - injection H as <-. rewrite Z.max_l by lia. reflexivity.
  - apply bind_Ok in H as (debt & Hsub & H). unfold sub in Hsub.
    destruct (Z.leb_spec amount (balance (borrowBalance st) sender)); [|lia].
    injection Hsub as <-. injection H as <-. rewrite Z.max_r by lia. reflexivity.
Qed.

Lemma withdrawCollateral_Ok sender amount st st' :
  withdrawCollateral sender amount st = Ok st' ->
  exists tok,
    0 < amount <= balance (collateralBalance st) sender /\
    isPositionSolvent sender (balance (collateralBalance st) sender - amount) st
      = Ok true /\
    transfer (collateralToken st) (this st) sender amount = Some tok /\
    st' = set_collateralToken tok
            (set_collateralBalance
               (<[sender := balance (collateralBalance st) sender - amount]>
                  (collateralBalance st)) st).
Proof.
  intros H. unfold withdrawCollateral in H.
  apply bind_Ok in H as (? & Hpos & H).
  apply bind_Ok in H as (? & Henough & H).
  apply bind_Ok in H as (remaining & Hrem & H).
  apply bind_Ok in H as (solvent & Hsolv & H).
  apply bind_Ok in H as (? & Hreq & H).
  apply bind_Ok in H as (kept & Hkept & H).
  apply bind_Ok in H as (tok & Htok & H).
  apply require_Ok in Henough, Hreq. subst solvent.
  apply require_Ok, Z.ltb_lt in Hpos.
  unfold sub in Hrem, Hkept. rewrite Henough in Hrem, Hkept.
  apply Z.leb_le in Henough.
  injection Hrem as <-. injection Hkept as <-. injection H as <-.
  apply token_call_Ok in Htok. simpl in Htok.
  exists tok. auto.
Qed.

Lemma liquidate_Ok sender user st st' :
  liquidate sender user st = Ok st' ->
  exists tok paid,
    isPositionSolvent user (balance (collateralBalance st) user) st = Ok false /\
    transfer (collateralToken st) (this st) sender
      (balance (collateralBalance st) user) = Some tok /\
    transferFrom (stableToken st) (this st) sender (this st)
      (balance (borrowBalance st) user) = Some paid /\
    st' = set_stableToken paid
            (set_collateralToken tok
               (set_borrowBalance (<[user := 0]> (borrowBalance st))
                  (set_collateralBalance (<[user := 0]> (collateralBalance st)) st))).
Proof.
  intros H. unfold liquidate in H.
  apply bind_Ok in H as (solvent & Hsolv & H).
  apply bind_Ok in H as (? & Hreq & H).
  apply bind_Ok in H as (tok & Htok & H).
  apply bind_Ok in H as (paid & Hpaid & H).
  apply require_Ok, negb_true_iff in Hreq. subst solvent.
  apply token_call_Ok in Htok, Hpaid. simpl in Htok, Hpaid.
  injection H as <-. exists tok, paid. auto.
Qed.

Lemma getMaxBorrowable_Ok user st limit :
  getMaxBorrowable user st = Ok limit ->
  let price := fst (priceOracle st) in
  let scale := 10 ^ snd (priceOracle st) in
  let value := balance (collateralBalance st) user * price / scale in
  0 < price /\ 0 < scale /\
  balance (collateralBalance st) user * price <= MAX_UINT256 /\
  scale <= MAX_UINT256 /\
  value * 100 <= MAX_UINT256 /\
  collateralizationRatio st <> 0 /\
  limit = value * 100 / collateralizationRatio st.
Proof.
  intros H. unfold getMaxBorrowable in H.
  destruct (priceOracle st) as [price decimals]. cbn [fst snd].
  apply bind_Ok in H as (? & Hprice & H).
  apply bind_Ok in H as (prod & Hprod & H).
  apply bind_Ok in H as (scale & Hscale & H).
  apply bind_Ok in H as (value & Hvalue & H).
  apply bind_Ok in H as (scaled & Hscaled & H).
  apply require_Ok, Z.ltb_lt in Hprice.
  unfold mul in Hprod. destruct (Z.leb_spec (balance (collateralBalance st) user * price) MAX_UINT256);
    [|discriminate]. injection Hprod as <-.
  unfold pow10 in Hscale. destruct (Z.leb_spec (10 ^ decimals) MAX_UINT256);
    [|discriminate]. injection Hscale as <-.
  unfold div in Hvalue. destruct (Z.eqb_spec (10 ^ decimals) 0); [discriminate|].
  injection Hvalue as <-.
  unfold mul in Hscaled.
  destruct (Z.leb_spec (balance (collateralBalance st) user * price / 10 ^ decimals * 100)
              MAX_UINT256); [|discriminate].
  injection Hscaled as <-.
  unfold div in H. destruct (Z.eqb_spec (collateralizationRatio st) 0); [discriminate|].
  injection H as <-.
  assert (0 <= 10 ^ decimals) by (apply Z.pow_nonneg; lia).
  repeat split; try assumption; lia.
Qed.

(** A debt within [getMaxBorrowable] is a solvent position. *)
Lemma within_limit_solvent user st limit :
  0 < collateralizationRatio st ->
  getMaxBorrowable user st = Ok limit ->
  0 < balance (borrowBalance st) user <= limit ->
  isPositionSolvent user (balance (collateralBalance st) user) st = Ok true.
Proof.
  intros Hr Hlimit [Hpos Hle].
  apply getMaxBorrowable_Ok in Hlimit.
  cbv zeta in Hlimit.
  destruct Hlimit as (Hprice & Hscale & Hprod & Hsc & Hval & _ & ->).
  unfold isPositionSolvent.
  destruct (priceOracle st) as [price decimals]. cbn [fst snd] in *.
  destruct (Z.eqb_spec (balance (borrowBalance st) user) 0); [lia|].
  set (value := balance (collateralBalance st) user * price / 10 ^ decimals) in *.
  set (debt := balance (borrowBalance st) user) in *.
  set (ratio := collateralizationRatio st) in *.
  assert (Hmul : debt * ratio <= value * 100).
  { pose proof (Z.mul_div_le (value * 100) ratio Hr). nia. }
  assert (Hreq : debt * ratio / 100 <= value).
  { rewrite <- (Z.div_mul value 100) by lia. apply Z.div_le_mono; lia. }
  unfold require, mul, pow10, div.
  destruct (Z.ltb_spec 0 price); [|lia]. cbn [bind].
  destruct (Z.leb_spec (balance (collateralBalance st) user * price) MAX_UINT256); [|lia].
  cbn [bind].
  destruct (Z.leb_spec (10 ^ decimals) MAX_UINT256); [|lia]. cbn [bind].
  destruct (Z.eqb_spec (10 ^ decimals) 0); [lia|]. cbn [bind].
  destruct (Z.leb_spec (debt * ratio) MAX_UINT256); [|lia]. cbn [bind].
  change (100 =? 0) with false. cbn [bind].
  fold value. destruct (Z.leb_spec (debt * ratio / 100) value); [reflexivity | lia].
Qed.

(** X1: a [borrow] that goes through raises the caller's debt by exactly
    [amount], keeps it within [getMaxBorrowable], and leaves the caller's
    position solvent at the price of the call (for a positive
    collateralization ratio and a debt that was not negative). *)
Theorem X1_borrow_leaves_position_solvent st sender amount pf (P : list Z) st' :
  0 < collateralizationRatio st ->
  0 <= balance (borrowBalance st) sender ->
  borrow sender amount pf P st = Ok st' ->
  balance (borrowBalance st') sender = balance (borrowBalance st) sender + amount /\
  (exists limit, getMaxBorrowable sender st' = Ok limit /\
                 balance (borrowBalance st') sender <= limit) /\
  isPositionSolvent sender (balance (collateralBalance st') sender) st' = Ok true.
Proof.
  intros Hr Hd H.
  apply borrow_Ok in H as (limit & tok & Hpos & Hlimit & Hle & _ & ->).
  set (st1 := set_stableToken tok
                (set_borrowBalance
                   (<[sender := balance (borrowBalance st) sender + amount]>
                      (borrowBalance st)) st)).
  assert (Hdebt : balance (borrowBalance st1) sender
                  = balance (borrowBalance st) sender + amount)
    by apply balance_insert_eq.
  assert (Hsame : getMaxBorrowable sender st1 = Ok limit) by exact Hlimit.
  assert (Hr1 : 0 < collateralizationRatio st1) by exact Hr.
  split; [exact Hdebt|].
  split; [exists limit; split; [exact Hsame | rewrite Hdebt; exact Hle]|].
  apply (within_limit_solvent sender st1 limit Hr1 Hsame).
  rewrite Hdebt. lia.
Qed.

(** X1 at user [1] borrowing 50000 against 100 units at price 2000. *)
Lemma X1_borrow_leaves_position_solvent_witness :
  exists st',
    borrow 1 50000 sample_proof [1; 50000; 200000; 133333; 1] (sample 100 0 2000)
      = Ok st' /\
    balance (borrowBalance st') 1 = 50000 /\
    isPositionSolvent 1 (balance (collateralBalance st') 1) st' = Ok true.
Proof.
  destruct (borrow 1 50000 sample_proof [1; 50000; 200000; 133333; 1]
              (sample 100 0 2000)) as [st'|e] eqn:E;
    [|vm_compute in E; discriminate].
  exists st'. split; [reflexivity|].
  destruct (X1_borrow_leaves_position_solvent (sample 100 0 2000) 1 50000
              sample_proof [1; 50000; 200000; 133333; 1] st')
    as (Hdebt & _ & Hsolv).
  - vm_compute. reflexivity.
  - vm_compute. discriminate.
  - exact E.
  - split; [exact Hdebt | exact Hsolv].
Defined.

(** X2: whenever [getPositionHealth] returns a value, that value is at
    least 100 exactly when [isPositionSolvent] holds of the user's whole
    collateral (for a debt and a ratio that are not negative). *)
Theorem X2_health_reads_solvency st user h :
  0 <= balance (borrowBalance st) user ->
  0 <= collateralizationRatio st ->
  getPositionHealth user st = Ok h ->
  isPositionSolvent user (balance (collateralBalance st) user) st = Ok (100 <=? h).
Proof.
  intros Hd Hr H. unfold getPositionHealth in H. unfold isPositionSolvent.
  destruct (Z.eqb_spec (balance (borrowBalance st) user) 0) as [E|E].
  { injection H as <-. reflexivity. }
  destruct (priceOracle st) as [price decimals].
  apply bind_Ok in H as (? & Hprice & H). rewrite Hprice. cbn [bind].
  apply bind_Ok in H as (prod & Hprod & H). rewrite Hprod. cbn [bind].
  apply bind_Ok in H as (scale & Hscale & H). rewrite Hscale. cbn [bind].
  apply bind_Ok in H as (value & Hvalue & H). rewrite Hvalue. cbn [bind].
  apply bind_Ok in H as (owed & Howed & H). rewrite Howed. cbn [bind].
  apply bind_Ok in H as (required & Hrequired & H). rewrite Hrequired. cbn [bind].
  apply bind_Ok in H as (scaled & Hscaled & H).
  unfold mul in Howed, Hscaled.
  destruct (_ <=? _) in Howed; [|discriminate]. injection Howed as <-.
  destruct (_ <=? _) in Hscaled; [|discriminate]. injection Hscaled as <-.
  unfold div in Hrequired, H. change (100 =? 0) with false in Hrequired.
  injection Hrequired as <-.
  destruct (Z.eqb_spec (balance (borrowBalance st) user * collateralizationRatio st / 100) 0);
    [discriminate|].
  injection H as <-. f_equal.
  set (required := balance (borrowBalance st) user * collateralizationRatio st / 100) in *.
  assert (0 <= required) by (apply Z.div_pos; nia).
  destruct (Z.leb_spec required value) as [Hle|Hgt];
    destruct (Z.leb_spec 100 (value * 100 / required)) as [Hh|Hh];
    try reflexivity; exfalso.
  - assert (100 <= value * 100 / required)
      by (apply Z.div_le_lower_bound; lia). lia.
  - assert (value * 100 / required < 100)
      by (apply Z.div_lt_upper_bound; lia). lia.
Qed.

(** X2 at a user who holds 100 units at price 2000 and owes 50000: the
    health is 266, the position solvent. *)
Lemma X2_health_reads_solvency_witness :
  getPositionHealth 1 (sample 100 50000 2000) = Ok 266 /\
  isPositionSolvent 1 100 (sample 100 50000 2000) = Ok true.
Proof.
  split; [reflexivity|].
  apply (X2_health_reads_solvency (sample 100 50000 2000) 1 266).
  - vm_compute. discriminate.
  - vm_compute. discriminate.
  - reflexivity.
Defined.

Lemma pow10_overflow d : 78 <= d -> pow10 d = Err (Panic 17).
Proof.
  intros H. unfold pow10.
  assert (10 ^ 78 <= 10 ^ d) by (apply Z.pow_le_mono_r; lia).
  assert (MAX_UINT256 < 10 ^ 78) by (vm_compute; reflexivity).
  destruct (Z.leb_spec (10 ^ d) MAX_UINT256); [lia | reflexivity].
Qed.

Lemma mul_then_pow10_overflow {A} a b d (k : Z -> Z -> result Error A) :
  78 <= d ->
  (let! prod := mul a b in let! scale := pow10 d in k prod scale)
  = Err (Panic 17).
Proof.
  intros H. unfold mul. destruct (a * b <=? MAX_UINT256); cbn [bind]; [|reflexivity].
  rewrite pow10_overflow by assumption. reflexivity.
Qed.

(** X3: an oracle that reports 78 decimals or more (with a positive
    price) stops the ledger: [10 ** decimals] overflows, so
    [getMaxBorrowable] panics for everyone and no [borrow] goes through;
    for a user in debt [isPositionSolvent] and [getPositionHealth] panic,
    no collateral can be withdrawn and the position cannot be liquidated. *)
Theorem X3_decimals_overflow st user :
  0 < fst (priceOracle st) ->
  78 <= snd (priceOracle st) ->
  getMaxBorrowable user st = Err (Panic 17) /\
  (forall amount pf P, exists e, borrow user amount pf P st = Err e) /\
  (balance (borrowBalance st) user <> 0 ->
     (forall collateralAmount,
        isPositionSolvent user collateralAmount st = Err (Panic 17)) /\
     getPositionHealth user st = Err (Panic 17) /\
     (forall amount, exists e, withdrawCollateral user amount st = Err e) /\
     (forall liquidator, liquidate liquidator user st = Err (Panic 17))).
Proof.
  intros Hp Hd.
  assert (Hmax : getMaxBorrowable user st = Err (Panic 17)).
  { unfold getMaxBorrowable. destruct (priceOracle st) as [price decimals].
    cbn [fst snd] in *. unfold require.
    destruct (Z.ltb_spec 0 price); [|lia]. cbn [bind].
    apply mul_then_pow10_overflow. assumption. }
  split; [exact Hmax|]. split.
  - intros amount pf P.
    destruct (borrow user amount pf P st) as [st'|e] eqn:E; [|eauto].
    apply borrow_Ok in E as (limit & ? & _ & Hl & _). congruence.
  - intros Hdebt.
    assert (Hsolv : forall c, isPositionSolvent user c st = Err (Panic 17)).
    { intros c. unfold isPositionSolvent.
      destruct (Z.eqb_spec (balance (borrowBalance st) user) 0); [contradiction|].
      destruct (priceOracle st) as [price decimals]. cbn [fst snd] in *.
      unfold require. destruct (Z.ltb_spec 0 price); [|lia]. cbn [bind].
      apply mul_then_pow10_overflow. assumption. }
    split; [exact Hsolv|]. split; [|split].
    + unfold getPositionHealth.
      destruct (Z.eqb_spec (balance (borrowBalance st) user) 0); [contradiction|].
      destruct (priceOracle st) as [price decimals]. cbn [fst snd] in *.
      unfold require. destruct (Z.ltb_spec 0 price); [|lia]. cbn [bind].
      apply mul_then_pow10_overflow. assumption.
    + intros amount.
      destruct (withdrawCollateral user amount st) as [st'|e] eqn:E; [|eauto].
      apply withdrawCollateral_Ok in E as (? & _ & Hs & _).
      rewrite Hsolv in Hs. discriminate.
    + intros liquidator. unfold liquidate. rewrite Hsolv. reflexivity.
Qed.

(** X3 at an oracle reporting price 2000 with 78 decimals, for a user who
    owes 50000. *)
Lemma X3_decimals_overflow_witness :
  getMaxBorrowable 1 (set_priceOracle (2000, 78) (sample 100 50000 2000))
    = Err (Panic 17) /\
  liquidate 2 1 (set_priceOracle (2000, 78) (sample 100 50000 2000))
    = Err (Panic 17).
Proof.
  destruct (X3_decimals_overflow
              (set_priceOracle (2000, 78) (sample 100 50000 2000)) 1)
    as (Hmax & _ & Hdebt).
  - reflexivity.
  - vm_compute. discriminate.
  - split; [exact Hmax|].
    destruct Hdebt as (_ & _ & _ & Hliq); [vm_compute; discriminate|].
    apply Hliq.
Defined.

(** X4: [liquidate] refuses a user without debt and a user whose position
    is solvent ("Position is solvent").  When it goes through (called by
    an account other than the ledger), the user's position was insolvent;
    it is wiped: collateral balance and debt are both zero; the liquidator
    has received the user's whole collateral and has paid exactly the
    user's debt to the ledger. *)
Theorem X4_liquidation st liquidator user :
  (balance (borrowBalance st) user = 0 ->
     liquidate liquidator user st = Err (Revert "Position is solvent")) /\
  (isPositionSolvent user (balance (collateralBalance st) user) st = Ok true ->
     liquidate liquidator user st = Err (Revert "Position is solvent")) /\
  (forall st', liquidator <> this st ->
     liquidate liquidator user st = Ok st' ->
     balance (borrowBalance st) user <> 0 /\
     isPositionSolvent user (balance (collateralBalance st) user) st = Ok false /\
     balance (collateralBalance st') user = 0 /\
     balance (borrowBalance st') user = 0 /\
     balance (balanceOf (collateralToken st')) liquidator =
       balance (balanceOf (collateralToken st)) liquidator
       + balance (collateralBalance st) user /\
     balance (balanceOf (stableToken st')) liquidator =
       balance (balanceOf (stableToken st)) liquidator
       - balance (borrowBalance st) user /\
     stable_held st' = stable_held st + balance (borrowBalance st) user).
Proof.
  split; [|split].
  - intros Hd. unfold liquidate, isPositionSolvent. rewrite Hd. reflexivity.
  - intros Hs. unfold liquidate. rewrite Hs. reflexivity.
  - intros st' Hne H.
    apply liquidate_Ok in H as (tok & paid & Hs & Htok & Hpaid & ->).
    apply transfer_moves in Htok as (_ & Hto & _); [|congruence].
    apply transferFrom_moves in Hpaid as (Hthis & Hfrom); [|assumption].
    unfold stable_held. cbn.
    rewrite !balance_insert_eq.
    repeat split; try assumption.
    intros Hd. unfold isPositionSolvent in Hs. rewrite Hd in Hs. discriminate.
Qed.

(** X4 at a user who holds 10 units at price 2000 and owes 50000 (the
    position is insolvent), liquidated by user [1] of a second sample. *)
Lemma X4_liquidation_witness :
  liquidate 2 1 (sample 100 0 2000) = Err (Revert "Position is solvent") /\
  liquidate 2 1 (sample 100 50000 2000) = Err (Revert "Position is solvent") /\
  exists st',
    liquidate 1 1 (sample 10 500 2) = Ok st' /\
    balance (collateralBalance st') 1 = 0 /\
    balance (borrowBalance st') 1 = 0 /\
    stable_held st' = 1000000 + 500.
Proof.
  destruct (X4_liquidation (sample 100 0 2000) 2 1) as (Hfree & _ & _).
  destruct (X4_liquidation (sample 100 50000 2000) 2 1) as (_ & Hsolv & _).
  destruct (X4_liquidation (sample 10 500 2) 1 1) as (_ & _ & Hliq).
  split; [apply Hfree; reflexivity|].
  split; [apply Hsolv; reflexivity|].
  destruct (liquidate 1 1 (sample 10 500 2)) as [st'|e] eqn:E;
    [|vm_compute in E; discriminate].
  exists st'. split; [reflexivity|].
  destruct (Hliq st') as (_ & _ & Hc & Hd & _ & _ & Hheld);
    [vm_compute; discriminate | reflexivity |].
  split; [exact Hc|]. split; [exact Hd | exact Hheld].
Defined.

(** ** Conservation *)

Lemma transferFrom_other t spender from to amount t' a :
  a <> from -> a <> to ->
  transferFrom t spender from to amount = Some t' ->
  balance (balanceOf t') a = balance (balanceOf t) a.
Proof.
  intros H1 H2 H. unfold transferFrom in H.
  destruct (_ && _); [|discriminate]. injection H as <-. simpl. unfold move.
  rewrite !balance_insert_ne by congruence. reflexivity.
Qed.

Lemma call_this sender c d d' :
  call sender c d = Ok d' -> this (ledger d') = this (ledger d).
Proof.
  destruct c; cbn [call]; unfold on_ledger, setVerifier, setPriceOracle,
    setCollateralizationRatio, setLiquidationThreshold; intros H;
    repeat (apply bind_Ok in H as (? & ? & H)); injection H as <-;
    cbn [ledger]; try reflexivity.
  - apply depositCollateral_Ok in H0 as (? & _ & _ & ->). reflexivity.
  - apply borrow_Ok in H0 as (? & ? & _ & _ & _ & _ & ->). reflexivity.
  - apply repay_Ok in H0 as (? & _ & _ & ->). reflexivity.
  - apply withdrawCollateral_Ok in H0 as (? & _ & _ & _ & ->). reflexivity.
  - apply liquidate_Ok in H0 as (? & ? & _ & _ & _ & ->). reflexivity.
Qed.

Lemma call_conserves sender c d d' :
  sender <> this (ledger d) ->
  call sender c d = Ok d' ->
  collateral_surplus (ledger d') = collateral_surplus (ledger d) /\
  lender_position (ledger d) <= lender_position (ledger d').
Proof.
  intros Hne H.
  destruct c; cbn [call] in H; unfold on_ledger, setVerifier, setPriceOracle,
    setCollateralizationRatio, setLiquidationThreshold in H;
    repeat (apply bind_Ok in H as (? & ? & H)); injection H as <-;
    cbn [ledger];
    try (unfold collateral_surplus, lender_position, collateral_held, stable_held;
         cbn; split; [reflexivity | lia]).
  - (* depositCollateral *)
    apply depositCollateral_Ok in H0 as (tok & _ & Htok & ->).
    apply transferFrom_moves in Htok as (Hto & _); [|assumption].
    unfold collateral_surplus, lender_position, collateral_held, stable_held.
    cbn. rewrite total_insert, Hto. split; lia.
  - (* borrow *)
    apply borrow_Ok in H0 as (limit & tok & _ & _ & _ & Htok & ->).
    apply transfer_moves in Htok as (_ & _ & Hfrom); [|congruence].
    unfold collateral_surplus, lender_position, collateral_held, stable_held.
    cbn. rewrite total_insert, Hfrom. split; lia.
  - (* repay *)
    apply repay_Ok in H0 as (tok & _ & Htok & ->).
    apply transferFrom_moves in Htok as (Hto & _); [|assumption].
    unfold collateral_surplus, lender_position, collateral_held, stable_held.
    cbn. rewrite total_insert, Hto. split; lia.
  - (* withdrawCollateral *)
    apply withdrawCollateral_Ok in H0 as (tok & _ & _ & Htok & ->).
    apply transfer_moves in Htok as (_ & _ & Hfrom); [|congruence].
    unfold collateral_surplus, lender_position, collateral_held, stable_held.
    cbn. rewrite total_insert, Hfrom. split; lia.
  - (* liquidate *)
    apply liquidate_Ok in H0 as (tok & paid & _ & Htok & Hpaid & ->).
    apply transfer_moves in Htok as (_ & _ & Hfrom); [|congruence].
    apply transferFrom_moves in Hpaid as (Hto & _); [|assumption].
    unfold collateral_surplus, lender_position, collateral_held, stable_held.
    cbn. rewrite !total_insert, Hfrom, Hto. split; lia.
Qed.

Lemma execute_this tx d : this (ledger (execute tx d)) = this (ledger d).
Proof.
  unfold execute. destruct (call (fst tx) (snd tx) d) eqn:E; [|reflexivity].
  apply call_this in E. exact E.
Qed.

(** X5: over any sequence of transactions sent by accounts other than the
    ledger itself, the ledger's holding of the collateral token moves in
    step with the collateral balances it records: their difference never
    changes.  Reverted transactions included. *)
Theorem X5_collateral_is_conserved txs d :
  Forall (fun tx => fst tx <> this (ledger d)) txs ->
  collateral_held (ledger (run txs d)) - total (collateralBalance (ledger (run txs d)))
  = collateral_held (ledger d) - total (collateralBalance (ledger d)).
Proof.
  revert d. induction txs as [|tx txs IH]; intros d H; [reflexivity|].
  inversion H as [|? ? Htx Htxs]; subst.
  change (run (tx :: txs) d) with (run txs (execute tx d)).
  rewrite IH by (rewrite execute_this; exact Htxs).
  unfold execute. destruct (call (fst tx) (snd tx) d) eqn:E; [|reflexivity].
  apply (call_conserves _ _ _ _ Htx) in E as [E _]. exact E.
Qed.

Lemma scenario_senders :
  Forall (fun tx : address * Call => fst tx <> this (ledger genesis)) scenario.
Proof. repeat constructor; vm_compute; discriminate. Qed.

(** X5 on the course of transactions [scenario]: the ledger ends up
    holding 60 collateral tokens against 60 recorded. *)
Lemma X5_collateral_is_conserved_witness :
  collateral_held (ledger (run scenario genesis)) = 60 /\
  total (collateralBalance (ledger (run scenario genesis))) = 60 /\
  collateral_held (ledger (run scenario genesis))
    - total (collateralBalance (ledger (run scenario genesis)))
  = collateral_held (ledger genesis) - total (collateralBalance (ledger genesis)).
Proof.
  split; [reflexivity|]. split; [reflexivity|].
  apply (X5_collateral_is_conserved scenario genesis), scenario_senders.
Defined.

(** X6: over any such sequence the ledger's holding of the stable token
    plus the debts it records never goes down: what is lent out is
    recorded as debt, what is repaid or paid by a liquidator comes in, and
    only an overpayment makes the sum grow. *)
Theorem X6_lender_position_never_shrinks txs d :
  Forall (fun tx => fst tx <> this (ledger d)) txs ->
  stable_held (ledger d) + total (borrowBalance (ledger d))
  <= stable_held (ledger (run txs d)) + total (borrowBalance (ledger (run txs d))).
Proof.
  revert d. induction txs as [|tx txs IH]; intros d H; [reflexivity|].
  inversion H as [|? ? Htx Htxs]; subst.
  change (run (tx :: txs) d) with (run txs (execute tx d)).
  etransitivity; [|apply IH; rewrite execute_this; exact Htxs].
  unfold execute. destruct (call (fst tx) (snd tx) d) eqn:E; [|reflexivity].
  apply (call_conserves _ _ _ _ Htx) in E as [_ E]. exact E.
Qed.

(** X6 on [scenario]: the overpayment of 10000 stays with the ledger. *)
Lemma X6_lender_position_never_shrinks_witness :
  stable_held (ledger genesis) + total (borrowBalance (ledger genesis)) = 1000000 /\
  stable_held (ledger (run scenario genesis))
    + total (borrowBalance (ledger (run scenario genesis))) = 1010000 /\
  stable_held (ledger genesis) + total (borrowBalance (ledger genesis))
  <= stable_held (ledger (run scenario genesis))
     + total (borrowBalance (ledger (run scenario genesis))).
Proof.
  split; [reflexivity|]. split; [reflexivity|].
  apply (X6_lender_position_never_shrinks scenario genesis), scenario_senders.
Defined.

(** ** Invariants of the state variables *)

Lemma call_well_formed sender c d d' :
  well_formed (ledger d) -> call sender c d = Ok d' -> well_formed (ledger d').
Proof.
  intros (Hr & Ht & Hc & Hb) H.
  destruct c; cbn [call] in H; unfold on_ledger, setVerifier, setPriceOracle,
    setCollateralizationRatio, setLiquidationThreshold in H;
    repeat (apply bind_Ok in H as (? & ? & H)); injection H as <-;
    cbn [ledger]; unfold well_formed.
  - apply depositCollateral_Ok in H0 as (tok & Hpos & _ & ->). cbn.
    repeat split; try assumption.
    apply nonneg_insert; [assumption|]. specialize (Hc sender). lia.
  - apply borrow_Ok in H0 as (limit & tok & Hpos & _ & _ & _ & ->). cbn.
    repeat split; try assumption.
    apply nonneg_insert; [assumption|]. specialize (Hb sender). lia.
  - apply repay_Ok in H0 as (tok & _ & _ & ->). cbn.
    repeat split; try assumption.
    apply nonneg_insert; [assumption | lia].
  - apply withdrawCollateral_Ok in H0 as (tok & Hle & _ & _ & ->). cbn.
    repeat split; try assumption.
    apply nonneg_insert; [assumption | lia].
  - apply liquidate_Ok in H0 as (tok & paid & _ & _ & _ & ->). cbn.
    repeat split; try assumption; apply nonneg_insert; (assumption || lia).
  - cbn. auto.
  - cbn. auto.
  - apply require_Ok, Z.leb_le in H1. cbn. auto.
  - apply require_Ok, Z.leb_le in H1. cbn. auto.
  - cbn. auto.
Qed.

(** X7: in every state the contract can reach from its constructor,
    whatever the transactions and whoever sends them, the
    collateralization ratio is at least 100, the liquidation threshold at
    most 100, and no recorded collateral balance or debt is negative. *)
Theorem X7_reachable_states_are_well_formed
  deployer _stable _collateral _verifier _priceOracle self txs :
  well_formed
    (ledger (run txs (constructor deployer _stable _collateral _verifier
                        _priceOracle self))).
Proof.
  assert (Hrun : forall txs d, well_formed (ledger d) -> well_formed (ledger (run txs d))).
  { clear txs. induction txs as [|tx txs IH]; intros d Hd; [exact Hd|].
    change (run (tx :: txs) d) with (run txs (execute tx d)).
    apply IH. unfold execute.
    destruct (call (fst tx) (snd tx) d) eqn:E; [|exact Hd].
    apply (call_well_formed _ _ _ _ Hd E). }
  apply Hrun. unfold well_formed, constructor. cbn.
  repeat split; try lia; intros a; unfold balance; rewrite lookup_empty; simpl; lia.
Qed.

(** X8: access control.  The four administrative calls fail with
    "Ownable: caller is not the owner" for every caller but the owner,
    and no call of another account changes the verifier, the oracle, the
    collateralization ratio or the liquidation threshold. *)
Theorem X8_only_the_owner_administers sender c d :
  sender <> owner d ->
  (forall o, c <> OracleReports o) ->
  match c with
  | SetVerifier _ | SetPriceOracle _
  | SetCollateralizationRatio _ | SetLiquidationThreshold _ =>
    call sender c d = Err (Revert "Ownable: caller is not the owner")
  | _ => True
  end /\
  let d' := execute (sender, c) d in
  verifier (ledger d') = verifier (ledger d) /\
  priceOracle (ledger d') = priceOracle (ledger d) /\
  collateralizationRatio (ledger d') = collateralizationRatio (ledger d) /\
  liquidationThreshold (ledger d') = liquidationThreshold (ledger d) /\
  owner d' = owner d.
Proof.
  intros Hne Hc.
  assert (Hown : onlyOwner sender d = Err (Revert "Ownable: caller is not the owner")).
  { unfold onlyOwner, require. destruct (Z.eqb_spec sender (owner d)); [contradiction|].
    reflexivity. }
  split.
  - destruct c; try exact I; cbn [call];
      unfold setVerifier, setPriceOracle, setCollateralizationRatio,
        setLiquidationThreshold; rewrite Hown; reflexivity.
  - cbv zeta. unfold execute. cbn [fst snd].
    destruct (call sender c d) as [d'|e] eqn:E; [|repeat split; reflexivity].
    destruct c; cbn [call] in E;
      unfold on_ledger, setVerifier, setPriceOracle, setCollateralizationRatio,
        setLiquidationThreshold in E;
      try (rewrite Hown in E; discriminate);
      try (exfalso; eapply Hc; reflexivity);
      apply bind_Ok in E as (st' & Hst & E); injection E as <-; cbn [ledger owner].
    + apply depositCollateral_Ok in Hst as (? & _ & _ & ->). repeat split; reflexivity.
    + apply borrow_Ok in Hst as (? & ? & _ & _ & _ & _ & ->). repeat split; reflexivity.
    + apply repay_Ok in Hst as (? & _ & _ & ->). repeat split; reflexivity.
    + apply withdrawCollateral_Ok in Hst as (? & _ & _ & _ & ->). repeat split; reflexivity.
    + apply liquidate_Ok in Hst as (? & ? & _ & _ & _ & ->). repeat split; reflexivity.
Qed.

(** X8 at user [2] trying to lower the ratio of [genesis] to 50. *)
Lemma X8_only_the_owner_administers_witness :
  call 2 (SetCollateralizationRatio 50) genesis
    = Err (Revert "Ownable: caller is not the owner") /\
  collateralizationRatio (ledger (execute (2, SetCollateralizationRatio 50) genesis))
    = 150.
Proof.
  destruct (X8_only_the_owner_administers 2 (SetCollateralizationRatio 50) genesis)
    as (Hrev & _ & _ & Hratio & _).
  - vm_compute. discriminate.
  - intros o. discriminate.
  - split; [exact Hrev | exact Hratio].
Defined.

(** ** What the calls do not look at *)

Ltac split_binds :=
  repeat match goal with
         | |- context [bind ?r _] => destruct r; cbn [bind map_result]
         | |- context [if ?c then _ else _] => destruct c; cbn [bind map_result]
         end.

(** X9: the liquidation threshold is never read.  Every call of the
    ledger, [liquidate] included, and every view gives the same outcome
    whatever the threshold is set to, and leaves the threshold alone. *)
Theorem X9_liquidation_threshold_is_never_read t st :
  (forall sender amount,
     depositCollateral sender amount (set_liquidationThreshold t st)
     = map_result (set_liquidationThreshold t) (depositCollateral sender amount st)) /\
  (forall sender amount pf P,
     borrow sender amount pf P (set_liquidationThreshold t st)
     = map_result (set_liquidationThreshold t) (borrow sender amount pf P st)) /\
  (forall sender amount,
     repay sender amount (set_liquidationThreshold t st)
     = map_result (set_liquidationThreshold t) (repay sender amount st)) /\
  (forall sender amount,
     withdrawCollateral sender amount (set_liquidationThreshold t st)
     = map_result (set_liquidationThreshold t) (withdrawCollateral sender amount st)) /\
  (forall sender user,
     liquidate sender user (set_liquidationThreshold t st)
     = map_result (set_liquidationThreshold t) (liquidate sender user st)) /\
  (forall user,
     getMaxBorrowable user (set_liquidationThreshold t st) = getMaxBorrowable user st) /\
  (forall user collateralAmount,
     isPositionSolvent user collateralAmount (set_liquidationThreshold t st)
     = isPositionSolvent user collateralAmount st) /\
  (forall user,
     getPositionHealth user (set_liquidationThreshold t st) = getPositionHealth user st).
Proof.
  destruct st as [cb bb lt cr V po stb ctk self].
  repeat split; intros;
    unfold depositCollateral, borrow, repay, withdrawCollateral, liquidate,
      getMaxBorrowable, isPositionSolvent, getPositionHealth;
    cbn [set_liquidationThreshold set_collateralBalance set_borrowBalance
         set_stableToken set_collateralToken collateralBalance borrowBalance
         liquidationThreshold collateralizationRatio verifier priceOracle
         stableToken collateralToken this];
    try reflexivity;
    try destruct po as [price decimals];
    split_binds; reflexivity.
Qed.

Lemma index_nth_error (P P' : list Z) i :
  nth_error P i = nth_error P' i -> index P i = index P' i.
Proof. unfold index. intros ->. reflexivity. Qed.

Lemma length_from_nth_error (P P' : list Z) :
  nth_error P 1 = nth_error P' 1 ->
  (2 <=? Z.of_nat (length P)) = (2 <=? Z.of_nat (length P')).
Proof.
  intros H.
  destruct (nth_error P 1) eqn:E; symmetry in H.
  - assert (1 < length P)%nat by (apply nth_error_Some; congruence).
    assert (1 < length P')%nat by (apply nth_error_Some; congruence).
    destruct (Z.leb_spec 2 (Z.of_nat (length P)));
      destruct (Z.leb_spec 2 (Z.of_nat (length P'))); lia.
  - apply nth_error_None in E, H.
    destruct (Z.leb_spec 2 (Z.of_nat (length P)));
      destruct (Z.leb_spec 2 (Z.of_nat (length P'))); lia.
Qed.

(** X10: of the public signals, [borrow] reads the first two and nothing
    else.  Two lists of signals that the verifier treats alike and that
    agree in positions 0 and 1 give the same outcome: [collateralValue],
    [maxBorrowable] and [canBorrow] (signals 2 to 4) are never compared
    with anything by the ledger. *)
Theorem X10_borrow_reads_two_signals st sender amount pf (P P' : list Z) :
  verifier st pf P = verifier st pf P' ->
  nth_error P 0 = nth_error P' 0 ->
  nth_error P 1 = nth_error P' 1 ->
  borrow sender amount pf P st = borrow sender amount pf P' st.
Proof.
  intros Hv H0 H1. unfold borrow.
  rewrite Hv, (length_from_nth_error P P' H1),
    (index_nth_error P P' 0 H0), (index_nth_error P P' 1 H1).
  reflexivity.
Qed.

(** X10 under a verifier that accepts everything (the development stub):
    signals claiming [canBorrow = 0] borrow just as well. *)
Lemma X10_borrow_reads_two_signals_witness :
  borrow 1 50000 sample_proof [1; 50000; 200000; 133333; 1]
    (set_verifier (fun _ _ => true) (sample 100 0 2000))
  = borrow 1 50000 sample_proof [1; 50000; 0; 0; 0]
      (set_verifier (fun _ _ => true) (sample 100 0 2000)).
Proof.
  apply (X10_borrow_reads_two_signals
           (set_verifier (fun _ _ => true) (sample 100 0 2000)));
    reflexivity.
Defined.

(** X11: [borrow] and [verifyProofWithValidation] agree on the proof.
    When the adapter's check fails for the caller and the amount,
    [borrow] fails; when it passes, [borrow] can only fail for financial
    reasons (zero amount, limit, price, token transfer, arithmetic), never
    over the proof or its signals. *)
Theorem X11_borrow_agrees_with_the_adapter st sender amount pf (P : list Z) :
  (verifyProofWithValidation (verifier st) pf P sender amount = false ->
   exists e, borrow sender amount pf P st = Err e) /\
  (verifyProofWithValidation (verifier st) pf P sender amount = true ->
   forall e, borrow sender amount pf P st = Err e -> financial e).
Proof.
  split.
  - intros Hf. destruct (borrow sender amount pf P st) as [st'|e] eqn:E; [|eauto].
    apply borrow_Ok_inv in E.
    apply adapter_accepts in E. congruence.
  - intros Ht e. apply adapter_accepts in Ht as (Hv & H0 & H1).
    apply borrow_fails_financially; assumption.
Qed.

(** X11 on a borrower whose proof is in order but whose collateral is
    not: ten units at price 2000 do not carry a loan of 50000. *)
Lemma X11_borrow_agrees_with_the_adapter_witness :
  verifyProofWithValidation (verifier (sample 10 0 2000)) sample_proof
    [1; 50000; 200000; 133333; 1] 1 50000 = true /\
  borrow 1 50000 sample_proof [1; 50000; 200000; 133333; 1] (sample 10 0 2000)
    = Err (Revert "Exceeds max borrowable") /\
  financial (Revert "Exceeds max borrowable").
Proof.
  split; [reflexivity|]. split; [reflexivity|].
  apply (proj2 (X11_borrow_agrees_with_the_adapter (sample 10 0 2000) 1 50000
                  sample_proof [1; 50000; 200000; 133333; 1]));
    reflexivity.
Defined.

(** ** Getting the collateral back *)

Lemma move_back (b : gmap Z Z) from to amount a :
  from <> to ->
  balance (move (move b from to amount) to from amount) a = balance b a.
Proof.
  intros Hne. unfold move.
  destruct (Z.eq_dec a from) as [->|Hf].
  - rewrite balance_insert_eq.
    rewrite (balance_insert_ne _ to from) by congruence.
    rewrite (balance_insert_ne _ to from) by congruence.
    rewrite balance_insert_eq. lia.
  - rewrite (balance_insert_ne _ from a) by congruence.
    destruct (Z.eq_dec a to) as [->|Ht].
    + rewrite !balance_insert_eq.
      rewrite (balance_insert_ne _ from to) by congruence. lia.
    + rewrite !(balance_insert_ne _ to a) by congruence.
      rewrite (balance_insert_ne _ from a) by congruence. reflexivity.
Qed.

Lemma withdrawCollateral_debt_free sender amount st :
  balance (borrowBalance st) sender = 0 ->
  0 < amount <= balance (collateralBalance st) sender ->
  amount <= collateral_held st ->
  withdrawCollateral sender amount st
  = Ok (set_collateralToken
          (mkERC20 (move (balanceOf (collateralToken st)) (this st) sender amount)
                   (allowance (collateralToken st)))
          (set_collateralBalance
             (<[sender := balance (collateralBalance st) sender - amount]>
                (collateralBalance st)) st)).
Proof.
  intros Hdebt [Hpos Hle] Hheld. unfold withdrawCollateral, isPositionSolvent.
  rewrite Hdebt. unfold require, sub.
  destruct (Z.ltb_spec 0 amount); [|lia].
  destruct (Z.leb_spec amount (balance (collateralBalance st) sender)); [|lia].
  cbn [bind Z.eqb]. unfold transfer.
  cbn [set_collateralBalance collateralToken this].
  unfold collateral_held in Hheld.
  destruct (Z.leb_spec amount (balance (balanceOf (collateralToken st)) (this st)));
    [|lia].
  reflexivity.
Qed.

(** X12: a deposit can be taken back.  A user without debt who deposits
    [amount] can withdraw the same amount in the next call, whatever the
    oracle reports, and every collateral balance, in the ledger's books and
    in the token, is then what it was before the deposit. *)
Theorem X12_deposit_then_withdraw st sender amount st1 :
  sender <> this st ->
  balance (borrowBalance st) sender = 0 ->
  0 <= balance (collateralBalance st) sender ->
  0 <= collateral_held st ->
  depositCollateral sender amount st = Ok st1 ->
  exists st2,
    withdrawCollateral sender amount st1 = Ok st2 /\
    (forall a, balance (collateralBalance st2) a = balance (collateralBalance st) a) /\
    (forall a, balance (balanceOf (collateralToken st2)) a
               = balance (balanceOf (collateralToken st)) a) /\
    borrowBalance st2 = borrowBalance st /\
    stableToken st2 = stableToken st.
Proof.
  intros Hne Hdebt Hcoll Hheld H.
  apply depositCollateral_Ok in H as (tok & Hpos & Htok & ->).
  pose proof Htok as Hmoved.
  apply transferFrom_moves in Hmoved as [Hto _]; [|assumption].
  unfold transferFrom in Htok. destruct (_ && _); [|discriminate].
  injection Htok as <-.
  eexists. split.
  - apply withdrawCollateral_debt_free.
    + exact Hdebt.
    + cbn [set_collateralBalance set_collateralToken collateralBalance].
      rewrite balance_insert_eq. lia.
    + unfold collateral_held in *.
      cbn [set_collateralBalance set_collateralToken collateralToken this balanceOf]
        in *.
      rewrite move_to by assumption. lia.
  - cbn [set_collateralBalance set_collateralToken collateralBalance borrowBalance
         stableToken collateralToken this balanceOf].
    repeat split.
    + intros a. rewrite balance_insert_eq.
      destruct (Z.eq_dec sender a) as [->|Ha].
      * rewrite balance_insert_eq. lia.
      * rewrite !balance_insert_ne by assumption. reflexivity.
    + intros a. apply move_back. assumption.
Qed.

Lemma X12_deposit_then_withdraw_witness :
  exists st2,
    withdrawCollateral 1 40
      (set_collateralBalance {[ 1 := 40 ]} (set_collateralToken
         (mkERC20 (move {[ 1 := 1000 ]} 1 999 40) {[ (1, 999) := 960 ]})
         (ledger genesis))) = Ok st2 /\
    (forall a, balance (collateralBalance st2) a
               = balance (collateralBalance (ledger genesis)) a) /\
    (forall a, balance (balanceOf (collateralToken st2)) a
               = balance (balanceOf (collateralToken (ledger genesis))) a) /\
    borrowBalance st2 = borrowBalance (ledger genesis) /\
    stableToken st2 = stableToken (ledger genesis).
Proof.
  apply (X12_deposit_then_withdraw (ledger genesis) 1 40).
  - vm_compute. discriminate.
  - reflexivity.
  - vm_compute. discriminate.
  - vm_compute. discriminate.
  - reflexivity.
Defined.

(** X13: a debt paid in full frees the collateral.  After a [repay] of at
    least the debt, the user can withdraw the whole collateral, provided
    the ledger holds that many tokens; the withdrawal goes through
    whatever the oracle has come to report in between, an invalid price
    included. *)
Theorem X13_repaid_debt_frees_collateral st sender amount st1 o :
  sender <> this st ->
  balance (borrowBalance st) sender <= amount ->
  0 < balance (collateralBalance st) sender <= collateral_held st ->
  repay sender amount st = Ok st1 ->
  exists st2,
    withdrawCollateral sender (balance (collateralBalance st) sender)
      (set_priceOracle o st1) = Ok st2 /\
    balance (collateralBalance st2) sender = 0 /\
    balance (borrowBalance st2) sender = 0 /\
    balance (balanceOf (collateralToken st2)) sender
    = balance (balanceOf (collateralToken st)) sender
      + balance (collateralBalance st) sender.
Proof.
  intros Hne Hall Hcoll H.
  apply repay_Ok in H as (tok & Hpos & _ & ->).
  rewrite Z.max_l by lia.
  eexists. split.
  - apply withdrawCollateral_debt_free.
    + cbn [set_priceOracle set_borrowBalance set_stableToken borrowBalance].
      apply balance_insert_eq.
    + cbn [set_priceOracle set_borrowBalance set_stableToken collateralBalance].
      lia.
    + exact (proj2 Hcoll).
  - cbn [set_priceOracle set_borrowBalance set_stableToken set_collateralToken
         set_collateralBalance collateralBalance borrowBalance collateralToken
         this balanceOf].
    rewrite !balance_insert_eq. repeat split; [lia|].
    apply move_to. congruence.
Qed.

Lemma X13_repaid_debt_frees_collateral_witness :
  exists st2,
    withdrawCollateral 1 100
      (set_priceOracle (0, 90)
         (set_borrowBalance (<[1 := 0]> {[ 1 := 500 ]})
            (set_stableToken
               (mkERC20 (move {[ 999 := 1000000; 1 := 1000 ]} 1 999 600)
                        (<[(1, 999) := 400]> {[ (1, 999) := 1000 ]}))
               (sample 100 500 2000)))) = Ok st2 /\
    balance (collateralBalance st2) 1 = 0 /\
    balance (borrowBalance st2) 1 = 0 /\
    balance (balanceOf (collateralToken st2)) 1
    = balance (balanceOf (collateralToken (sample 100 500 2000))) 1
      + balance (collateralBalance (sample 100 500 2000)) 1.
Proof.
  apply (X13_repaid_debt_frees_collateral (sample 100 500 2000) 1 600 _ (0, 90)).
  - vm_compute. discriminate.
  - vm_compute. discriminate.
  - split; vm_compute; [reflexivity | discriminate].
  - reflexivity.
Defined.

End LedgerExtra.

(** * Further properties of the proof files *)

Module JsonExtra.
Import Json JsonSpec.

Lemma skip_ws_all w : forallb is_ws w = true -> skip_ws w = [].
Proof.
  intros H. rewrite <- (app_nil_r w). rewrite skip_ws_app by assumption.
  reflexivity.
Qed.

(** X18: white space around a printed value does not matter, anything
    else after it does.  For every value of the fragment, [JSON.parse]
    reads the text printed by [JSON.stringify(v, null, 2)] back to [v]
    when white space (the newline an editor adds at the end of a file,
    say) comes before and after it, and stops with a [SyntaxError] when
    the text after it holds anything but white space. *)
Theorem X18_surrounding_white_space v :
  in_fragment v = true ->
  (forall before after,
     forallb is_ws before = true -> forallb is_ws after = true ->
     JSON_parse (before ++ JSON_stringify v ++ after) = Ok v) /\
  (forall after,
     skip_ws after <> [] ->
     JSON_parse (JSON_stringify v ++ after) = Err SyntaxError).
Proof.
  intros Fv. split.
  - intros before after Hb Ha. unfold JSON_parse, JSON_stringify.
    rewrite (stringify_reads_back v 0 before after _ Fv Hb)
      by (rewrite !length_app; lia).
    cbn [bind fst snd]. rewrite skip_ws_all by assumption. reflexivity.
  - intros after Ha. unfold JSON_parse, JSON_stringify.
    pose proof (stringify_reads_back v 0 [] after
                  (2 * length (stringify 0 v ++ after) + 2) Fv eq_refl) as H.
    cbn [app] in H. rewrite H by (rewrite length_app; lia).
    cbn [bind fst snd]. destruct (skip_ws after); [congruence|reflexivity].
Qed.

(** X18 on the example proof, followed by a newline, and followed by a
    second value. *)
Lemma X18_surrounding_white_space_witness :
  JSON_parse ([] ++ JSON_stringify example_proof ++ [newline]) = Ok example_proof /\
  JSON_parse (JSON_stringify example_proof ++ JSON_stringify JNull)
  = Err SyntaxError.
Proof.
  destruct (X18_surrounding_white_space example_proof eq_refl) as [Hws Hrest].
  split.
  - apply Hws; reflexivity.
  - apply Hrest. vm_compute. discriminate.
Defined.

End JsonExtra.

(** * Properties of [scripts/generate-proof.js] *)

Module ScriptExtra.
Import Json Script.

Section Tools.
Variable execSync : Command -> gmap string text -> gmap string text * bool.

(** X19: without its prerequisites the script does nothing.  When the
    compiled circuit, the proving key or the input file is missing, the
    script exits with status 1, runs no command and leaves every file as
    it was. *)
Theorem X19_missing_prerequisite fs :
  fs !! wasmFile = None \/ fs !! zkeyFile = None \/ fs !! inputFile = None ->
  generate_proof execSync fs = mkOutcome (Exit 1) [] fs.
Proof.
  intros H. unfold generate_proof, existsSync.
  destruct (fs !! wasmFile); [|reflexivity].
  destruct (fs !! zkeyFile); [|reflexivity].
  destruct (fs !! inputFile); [|reflexivity].
  destruct H as [H|[H|H]]; discriminate.
Qed.

(** X20: exit status 0 means the proof was made and verified.  When the
    script ends with status 0, the three prerequisites were there, the
    witness generator, the prover and the verifier were run in this
    order, each on the files its predecessor left, each with exit status
    0, and the proof and the public signals the script leaves are JSON
    texts, the proof not [null].  Nothing more is checked of the proof:
    its shape is not looked at. *)
Theorem X20_success_means_verified fs :
  status (generate_proof execSync fs) = Exit 0 ->
  existsSync wasmFile fs = true /\
  existsSync zkeyFile fs = true /\
  existsSync inputFile fs = true /\
  exists fs1 fs2 fs3 proof signals,
    execSync witnessCommand fs = (fs1, true) /\
    execSync proveCommand fs1 = (fs2, true) /\
    execSync verifyCommand fs2 = (fs3, true) /\
    generate_proof execSync fs
    = mkOutcome (Exit 0) [witnessCommand; proveCommand; verifyCommand] fs3 /\
    parse_file proofFile fs3 = Ok proof /\ proof <> JNull /\
    parse_file publicFile fs3 = Ok signals.
Proof.
  unfold generate_proof.
  destruct (existsSync wasmFile fs); [|discriminate].
  destruct (existsSync zkeyFile fs); [|discriminate].
  destruct (existsSync inputFile fs); [|discriminate].
  cbn [negb].
  destruct (execSync witnessCommand fs) as [fs1 [|]] eqn:E1; [|discriminate].
  cbn [negb].
  destruct (execSync proveCommand fs1) as [fs2 [|]] eqn:E2; [|discriminate].
  cbn [negb].
  destruct (execSync verifyCommand fs2) as [fs3 [|]] eqn:E3; [|discriminate].
  cbn [negb status]. intros Hd.
  repeat split. exists fs1, fs2, fs3.
  unfold display in Hd |- *.
  destruct (parse_file proofFile fs3) as [proof|[|[| |]]]; try discriminate.
  destruct (parse_file publicFile fs3) as [signals|[|[| |]]]; try discriminate.
  exists proof, signals.
  destruct proof; try discriminate; repeat split;
    try reflexivity; try assumption; discriminate.
Qed.

End Tools.

(** X19 on a project without [circuits/input.json]. *)
Lemma X19_missing_prerequisite_witness :
  generate_proof example_tools (delete inputFile example_files)
  = mkOutcome (Exit 1) [] (delete inputFile example_files).
Proof.
  apply (X19_missing_prerequisite example_tools).
  right. right. reflexivity.
Defined.

(** X20 on a complete project, with the stand-in tools. *)
Lemma X20_success_means_verified_witness :
  existsSync wasmFile example_files = true /\
  existsSync zkeyFile example_files = true /\
  existsSync inputFile example_files = true /\
  exists fs1 fs2 fs3 proof signals,
    example_tools witnessCommand example_files = (fs1, true) /\
    example_tools proveCommand fs1 = (fs2, true) /\
    example_tools verifyCommand fs2 = (fs3, true) /\
    generate_proof example_tools example_files
    = mkOutcome (Exit 0) [witnessCommand; proveCommand; verifyCommand] fs3 /\
    parse_file proofFile fs3 = Ok proof /\ proof <> JNull /\
    parse_file publicFile fs3 = Ok signals.
Proof.
  apply (X20_success_means_verified example_tools example_files).
  vm_compute. reflexivity.
Defined.

End ScriptExtra.
